(** * ImportRecipientsService: a shallow embedding

    Source: [src/events/lib/import_recipients_service.js].

    The service imports a CSV recipient list from S3 into the recipient
    store in batches of 25, re-invoking its own lambda when the remaining
    execution time falls under a threshold.  Promises are modelled by the
    value they settle with, external collaborators (S3, the recipient
    store, the lambda client, the clock) by the answers they give, and
    every external call by an event of a trace. *)

From Stdlib Require Import String Ascii ZArith NArith List Bool Lia.
Import ListNotations.

Local Open Scope Z_scope.

(** ** JavaScript strings

    A JavaScript string is a sequence of UTF-16 code units. *)

Definition jsstring : Type := list N.

(** ASCII literals, for readable examples. *)
Definition js (s : string) : jsstring :=
  map N_of_ascii (list_ascii_of_string s).

Definition jsstring_eqb (a b : jsstring) : bool :=
  if list_eq_dec N.eq_dec a b then true else false.

(** ** Regular expressions, as far as the source uses them

    [/\S+@\S+\.\S+/.test(email)] has no anchors and no flags: [test]
    answers whether the pattern matches at some start index.  The matcher
    below tries every start index in turn and, at each, looks for a
    matching prefix with Brzozowski derivatives. *)

Module Regex.

Inductive regex : Type :=
| Void
| Eps
| Class (p : N -> bool)
| Cat (r s : regex)
| Alt (r s : regex)
| Star (r : regex).

(** A literal character and the [+] quantifier. *)
Definition Lit (c : N) : regex := Class (N.eqb c).
Definition Plus (r : regex) : regex := Cat r (Star r).

Fixpoint nullable (r : regex) : bool :=
  match r with
  | Void => false
  | Eps => true
  | Class _ => false
  | Cat r s => nullable r && nullable s
  | Alt r s => nullable r || nullable s
  | Star _ => true
  end.

Fixpoint deriv (c : N) (r : regex) : regex :=
  match r with
  | Void => Void
  | Eps => Void
  | Class p => if p c then Eps else Void
  | Cat r s =>
      if nullable r then Alt (Cat (deriv c r) s) (deriv c s)
      else Cat (deriv c r) s
  | Alt r s => Alt (deriv c r) (deriv c s)
  | Star r => Cat (deriv c r) (Star r)
  end.

(** Does the pattern match some prefix of [s]? *)
Fixpoint matchPrefix (r : regex) (s : jsstring) : bool :=
  nullable r ||
  match s with
  | [] => false
  | c :: t => matchPrefix (deriv c r) t
  end.

(** [RegExp.prototype.test] for a pattern without flags: start indices
    0, 1, ..., length are tried in order. *)
Fixpoint test (r : regex) (s : jsstring) : bool :=
  matchPrefix r s ||
  match s with
  | [] => false
  | _ :: t => test r t
  end.

(** The language of a pattern. *)
Inductive lang : regex -> jsstring -> Prop :=
| lang_eps : lang Eps []
| lang_class p c : p c = true -> lang (Class p) [c]
| lang_cat r s u v : lang r u -> lang s v -> lang (Cat r s) (u ++ v)
| lang_alt_l r s u : lang r u -> lang (Alt r s) u
| lang_alt_r r s u : lang s u -> lang (Alt r s) u
| lang_star_nil r : lang (Star r) []
| lang_star_app r u v : lang r u -> lang (Star r) v -> lang (Star r) (u ++ v).

End Regex.

(** ** JavaScript values and arrays *)

(** The values the service inspects dynamically (the persistence outcome's
    [UnprocessedItems], the S3 metadata, the lambda acknowledgement). *)
#[warnings="-register-all"]
Inductive jsval : Type :=
| JUndefined
| JNull
| JBool (b : bool)
| JNumber (n : Z)
| JString (s : jsstring)
| JArray (items : list jsval)
| JObject (props : list (jsstring * jsval)).

(** ToBoolean, as [&&] applies it. *)
Definition truthy (v : jsval) : bool :=
  match v with
  | JUndefined | JNull => false
  | JBool b => b
  | JNumber n => negb (n =? 0)
  | JString s => match s with [] => false | _ => true end
  | JArray _ | JObject _ => true
  end.

(** [v instanceof Array]. *)
Definition instanceofArray (v : jsval) : bool :=
  match v with
  | JArray _ => true
  | _ => false
  end.

(** [v.length], for an Array. *)
Definition array_length (v : jsval) : Z :=
  match v with
  | JArray items => Z.of_nat (length items)
  | _ => 0
  end.

(** [Array.prototype.slice(start, end)]: a negative index counts from the
    end of the array, and both indices are clamped to [0, length]. *)
Definition slice {A : Type} (l : list A) (start end_ : Z) : list A :=
  let len := Z.of_nat (length l) in
  let k := if start <? 0 then Z.max (len + start) 0 else Z.min start len in
  let final := if end_ <? 0 then Z.max (len + end_) 0 else Z.min end_ len in
  firstn (Z.to_nat (final - k)) (skipn (Z.to_nat k) l).

(** [String.prototype.split(sep)] for a one-character separator: the
    result is never empty. *)
Fixpoint split (sep : N) (s : jsstring) : list jsstring :=
  match s with
  | [] => [[]]
  | c :: t =>
      if N.eqb c sep then [] :: split sep t
      else match split sep t with
           | [] => [[c]]
           | h :: r => (c :: h) :: r
           end
  end.

(** An object as the list of its properties, in property order: a row
    decoded by the CSV reader, the header mapping, the [metadata] of a
    recipient. *)
Definition object (A : Type) : Type := list (jsstring * A).

(** [o[key]]: [None] is [undefined]. *)
Fixpoint get {A : Type} (o : object A) (key : jsstring) : option A :=
  match o with
  | [] => None
  | (k, v) :: t => if jsstring_eqb k key then Some v else get t key
  end.

(** [o[key] = v]: an existing property keeps its place. *)
Fixpoint set {A : Type} (o : object A) (key : jsstring) (v : A) : object A :=
  match o with
  | [] => [(key, v)]
  | (k, x) :: t =>
      if jsstring_eqb k key then (k, v) :: t else (k, x) :: set t key v
  end.

(** ToString of a value that is a string or [undefined]. *)
Definition ToString (v : option jsstring) : jsstring :=
  match v with
  | Some s => s
  | None => js "undefined"
  end.

(** ** Promises

    A promise is modelled by how it settles.  [Pending] is a promise that
    never settles: the collaborator never answered. *)
Inductive Promise (V E : Type) : Type :=
| Fulfilled (v : V)
| Rejected (e : E)
| Pending.

Arguments Fulfilled {V E} v.
Arguments Rejected {V E} e.
Arguments Pending {V E}.

(** ** Data of the service *)

(** The S3 event record the lambda was triggered with: [bucket.name] and
    [object.key] are the fields the service reads. *)
Record S3Event : Type := {
  bucket_name : jsstring;
  object_key : jsstring
}.

(** An error object, as the callbacks and the [catch] handler read it. *)
Record JsError : Type := {
  message : jsstring;
  stack : jsstring
}.

(** The recipient built for one CSV row. *)
Module Recipient.
Record t : Type := {
  id : jsstring;
  userId : jsstring;
  listId : option jsstring;
  email : option jsstring;
  metadata : object (option jsstring);
  status : jsstring;
  isConfirmed : bool;
  createdAt : Z
}.
End Recipient.

Inductive ImportStatusKind : Type := SUCCESS | FAILED.

(** The [importStatus] object literal of [saveRecipients]; [message] and
    [stackTrace] are absent from the SUCCESS literal. *)
Module Status.
Record t : Type := {
  listId : option jsstring;
  userId : jsstring;
  totalRecipientsCount : Z;
  corruptedEmailsCount : Z;
  corruptedEmails : list (option jsstring);
  importedCount : Z;
  importStatus : ImportStatusKind;
  updatedAt : jsstring;
  message : option jsstring;
  stackTrace : option jsstring
}.
End Status.

(** What a promise of the service can settle with. *)
Inductive Value : Type :=
| VUndefined
| VString (s : jsstring)
| VError (e : JsError)
| VData (d : jsval)
| VStatus (s : Status.t).

(** [{ Records: [{ s3: this.s3Event }], importOffset: this.importOffset }] *)
Record Payload : Type := {
  Records_s3 : S3Event;
  payload_importOffset : Z
}.

(** The parameters of [lambdaClient.invoke]; [Payload] is kept structured
    (the source serialises it with [JSON.stringify]). *)
Record InvokeParams : Type := {
  FunctionName : jsstring;
  InvocationType : jsstring;
  InvokePayload : Payload
}.

(** External calls, in the order the service makes them.  [EOrphan p] is
    a promise created by an expression statement: nothing holds it, so no
    caller can observe how it settled. *)
Inductive Event : Type :=
| EGetObject (Bucket Key : jsstring)
| EJsonParse (metadata : jsval)
| ECsvFromString (csvString : jsstring)
| ESaveAll (recipientsBatch : list Recipient.t)
| EInvoke (params : InvokeParams)
| EOrphan (p : Promise Value Value).

(** The fields of [this].  The clients ([s3], [lambdaClient], [context])
    are represented by the answers of the environment below. *)
Record Service : Type := {
  s3Event : S3Event;
  importOffset : Z;
  bucket : jsstring;
  fileKey : jsstring;
  userId : jsstring;
  listId : option jsstring;
  fileExt : jsstring;
  corruptedEmails : list (option jsstring);
  recipients : list Recipient.t;
  totalRecipientsCount : Z;
  lambdaName : jsstring;
  headerMapping : option (object jsstring)
}.

Definition set_importOffset (this : Service) (v : Z) : Service :=
  {| s3Event := s3Event this; importOffset := v; bucket := bucket this;
     fileKey := fileKey this; userId := userId this; listId := listId this;
     fileExt := fileExt this; corruptedEmails := corruptedEmails this;
     recipients := recipients this;
     totalRecipientsCount := totalRecipientsCount this;
     lambdaName := lambdaName this; headerMapping := headerMapping this |}.

Definition set_corruptedEmails (this : Service) (v : list (option jsstring))
  : Service :=
  {| s3Event := s3Event this; importOffset := importOffset this;
     bucket := bucket this; fileKey := fileKey this; userId := userId this;
     listId := listId this; fileExt := fileExt this; corruptedEmails := v;
     recipients := recipients this;
     totalRecipientsCount := totalRecipientsCount this;
     lambdaName := lambdaName this; headerMapping := headerMapping this |}.

Definition set_recipients (this : Service) (v : list Recipient.t) : Service :=
  {| s3Event := s3Event this; importOffset := importOffset this;
     bucket := bucket this; fileKey := fileKey this; userId := userId this;
     listId := listId this; fileExt := fileExt this;
     corruptedEmails := corruptedEmails this; recipients := v;
     totalRecipientsCount := totalRecipientsCount this;
     lambdaName := lambdaName this; headerMapping := headerMapping this |}.

Definition set_totalRecipientsCount (this : Service) (v : Z) : Service :=
  {| s3Event := s3Event this; importOffset := importOffset this;
     bucket := bucket this; fileKey := fileKey this; userId := userId this;
     listId := listId this; fileExt := fileExt this;
     corruptedEmails := corruptedEmails this; recipients := recipients this;
     totalRecipientsCount := v;
     lambdaName := lambdaName this; headerMapping := headerMapping this |}.

Definition set_headerMapping (this : Service) (v : option (object jsstring))
  : Service :=
  {| s3Event := s3Event this; importOffset := importOffset this;
     bucket := bucket this; fileKey := fileKey this; userId := userId this;
     listId := listId this; fileExt := fileExt this;
     corruptedEmails := corruptedEmails this; recipients := recipients this;
     totalRecipientsCount := totalRecipientsCount this;
     lambdaName := lambdaName this; headerMapping := v |}.

(** ** The environment *)

(** The answer of [s3Client.getObject]: an error, or the object's
    [Metadata] and its [Body] decoded as UTF-8. *)
Inductive GetObjectResponse : Type :=
| GetObjectErr (err : JsError)
| GetObjectData (Metadata : jsval) (Body : jsstring).

(** The outcome of one [Recipient.saveAll] call: a rejection, or the
    result object, of which the service reads [UnprocessedItems]
    ([JUndefined] when the property is absent), together with what
    [context.getRemainingTimeInMillis()] answers once it has arrived. *)
Inductive SaveResponse : Type :=
| SaveRejects (err : JsError)
| SaveResolves (UnprocessedItems : jsval) (remainingTimeInMillis : Z).

(** The answer of [lambdaClient.invoke]. *)
Inductive InvokeResponse : Type :=
| InvokeErr (err : JsError)
| InvokeData (data : jsval).

Record Env : Type := {
  getObject : GetObjectResponse;
  (** [new Date().getTime()] when the i-th row is decoded *)
  rowTime : nat -> Z;
  (** the answers of the successive [Recipient.saveAll] calls *)
  saveAll : list SaveResponse;
  invoke : InvokeResponse;
  (** [new Date().toString()] when a status object is built *)
  dateString : jsstring
}.

(** Library functions the service imports. *)
Class Libs : Type := {
  (** [querystring.unescape] *)
  querystring_unescape : jsstring -> jsstring;
  (** [base64url.encode] of a string; on [undefined] the library throws
      (the Buffer it builds refuses the argument), which [newRecp]
      accounts for *)
  base64url_encode : jsstring -> jsstring;
  (** [JSON.parse] of the S3 metadata, as the pairs [(key, mapping[key])]
      that [for (key in headerMapping)] enumerates; [None] when it throws *)
  JSON_parse : jsval -> option (object jsstring);
  (** the rows [csv.fromString] emits with [headers: true] *)
  csv_fromString : jsstring -> list (object jsstring);
  (** [Recipient.statuses.subscribed] *)
  statuses_subscribed : jsstring
}.

(** The result of running a method: how the promise it returns settles,
    the fields of [this] afterwards, and the external calls it made. *)
Record Run (V E : Type) : Type := {
  outcome : Promise V E;
  after : Service;
  trace : list Event
}.

Arguments outcome {V E} r.
Arguments after {V E} r.
Arguments trace {V E} r.

(** ** The service *)

(** [\s] of ECMAScript: WhiteSpace and LineTerminator code units. *)
Definition isWhiteSpace (c : N) : bool :=
  (((9 <=? c) && (c <=? 13)) || (c =? 32) || (c =? 160) || (c =? 5760)
   || ((8192 <=? c) && (c <=? 8202)) || (c =? 8232) || (c =? 8233)
   || (c =? 8239) || (c =? 8287) || (c =? 12288) || (c =? 65279))%N.

(** [\S] *)
Definition nonWhiteSpace (c : N) : bool := negb (isWhiteSpace c).

(** The code units of [@] and [.]. *)
Definition at_sign : N := 64.

Definition dot : N := 46.

(** [/\S+@\S+\.\S+/] *)
Definition emailPattern : Regex.regex :=
  Regex.Cat (Regex.Plus (Regex.Class nonWhiteSpace))
    (Regex.Cat (Regex.Lit at_sign)
       (Regex.Cat (Regex.Plus (Regex.Class nonWhiteSpace))
          (Regex.Cat (Regex.Lit dot)
             (Regex.Plus (Regex.Class nonWhiteSpace))))).

(** [get executionThreshold()] *)
Definition executionThreshold : Z := 60000.

(** [get maxBatchSize()] *)
Definition maxBatchSize : Z := 25.

(** [context.getRemainingTimeInMillis() > this.executionThreshold] *)
Definition timeEnough (remainingTimeInMillis : Z) : bool :=
  remainingTimeInMillis >? executionThreshold.

(** [filterByEmail]: the verdict and [this] afterwards. *)
Definition filterByEmail (this : Service) (recipient : Recipient.t)
  : bool * Service :=
  let email := Recipient.email recipient in
  if Regex.test emailPattern (ToString email) then (true, this)
  else (false, set_corruptedEmails this (corruptedEmails this ++ [email])).

(** [recipients.filter(this.filterByEmail.bind(this))]: the callback runs
    on the elements from left to right. *)
Fixpoint filterRecipients (this : Service) (l : list Recipient.t)
  : list Recipient.t * Service :=
  match l with
  | [] => ([], this)
  | recipient :: rest =>
      let (keep, this1) := filterByEmail this recipient in
      let (kept, this2) := filterRecipients this1 rest in
      (if keep then recipient :: kept else kept, this2)
  end.

(** The status literal of the [else] branch of [saveRecipients]. *)
Definition successStatus (env : Env) (this : Service) : Status.t :=
  {| Status.listId := listId this;
     Status.userId := userId this;
     Status.totalRecipientsCount := totalRecipientsCount this;
     Status.importedCount := importOffset this;
     Status.corruptedEmailsCount := Z.of_nat (length (corruptedEmails this));
     Status.corruptedEmails := corruptedEmails this;
     Status.importStatus := SUCCESS;
     Status.updatedAt := dateString env;
     Status.message := None;
     Status.stackTrace := None |}.

(** The status literal of the [catch] handler of [saveRecipients]. *)
Definition failedStatus (env : Env) (this : Service) (err : JsError)
  : Status.t :=
  {| Status.listId := listId this;
     Status.userId := userId this;
     Status.totalRecipientsCount := totalRecipientsCount this;
     Status.corruptedEmailsCount := Z.of_nat (length (corruptedEmails this));
     Status.corruptedEmails := corruptedEmails this;
     Status.importedCount := importOffset this;
     Status.importStatus := FAILED;
     Status.updatedAt := dateString env;
     Status.message := Some (message err);
     Status.stackTrace := Some (stack err) |}.

(** Lines 67-71, and again 74-78: the offset after a chunk has come back. *)
Definition advanceOffset (this : Service) (UnprocessedItems : jsval)
    (recipientsBatch : list Recipient.t) : Service :=
  if truthy UnprocessedItems && instanceofArray UnprocessedItems then
    set_importOffset this
      (importOffset this + (maxBatchSize - array_length UnprocessedItems))
  else
    set_importOffset this
      (importOffset this
       + Z.min maxBatchSize (Z.of_nat (length recipientsBatch))).

(** [invokeLambda]: it settles as the lambda client answers. *)
Definition invokeLambda (env : Env) (this : Service) : Run Value JsError :=
  let payload :=
    {| Records_s3 := s3Event this;
       payload_importOffset := importOffset this |} in
  let params :=
    {| FunctionName := lambdaName this;
       InvocationType := js "Event";
       InvokePayload := payload |} in
  {| outcome :=
       match invoke env with
       | InvokeErr err => Rejected err
       | InvokeData data => Fulfilled (VData data)
       end;
     after := this;
     trace := [EInvoke params] |}.

(** [.catch(err => { ...; Promise.reject(importStatus); })]: the handler
    builds the FAILED status, wraps it in a rejected promise that it does
    not return, and so returns [undefined]. *)
Definition catchHandler (env : Env) (r : Run Value JsError)
  : Run Value JsError :=
  match outcome r with
  | Rejected err =>
      let importStatus := failedStatus env (after r) err in
      {| outcome := Fulfilled VUndefined;
         after := after r;
         trace := trace r ++ [EOrphan (Rejected (VStatus importStatus))] |}
  | _ => r
  end.

(** [saveRecipients].  Each [Recipient.saveAll] call consumes one answer;
    when the answers run out the call never settles.  In the [else]
    branch the method builds the SUCCESS status, wraps it in a resolved
    promise that it does not return, and so returns [undefined] (which a
    [then] callback that returns it settles with). *)
Fixpoint saveRecipients (env : Env) (answers : list SaveResponse)
    (this : Service) {struct answers} : Run Value JsError :=
  if importOffset this <? Z.of_nat (length (recipients this)) then
    let recipientsBatch :=
      slice (recipients this) (importOffset this)
        (importOffset this + maxBatchSize) in
    catchHandler env
      match answers with
      | [] =>
          {| outcome := Pending; after := this;
             trace := [ESaveAll recipientsBatch] |}
      | SaveRejects err :: _ =>
          {| outcome := Rejected err; after := this;
             trace := [ESaveAll recipientsBatch] |}
      | SaveResolves UnprocessedItems remaining :: rest =>
          if timeEnough remaining then
            let this1 := advanceOffset this UnprocessedItems recipientsBatch in
            let r := saveRecipients env rest this1 in
            {| outcome := outcome r; after := after r;
               trace := ESaveAll recipientsBatch :: trace r |}
          else
            let this1 := advanceOffset this UnprocessedItems recipientsBatch in
            let r := invokeLambda env this1 in
            {| outcome := outcome r; after := after r;
               trace := ESaveAll recipientsBatch :: trace r |}
      end
  else
    let importStatus := successStatus env this in
    {| outcome := Fulfilled VUndefined; after := this;
       trace := [EOrphan (Fulfilled (VStatus importStatus))] |}.

Section WithLibs.

Context {libs : Libs}.

(** The constructor; [importOffset] defaults to 0 when the event carries
    none. *)
Definition constructor (ev : S3Event) (offset : option Z)
    (functionName : jsstring) : Service :=
  let key := querystring_unescape (object_key ev) in
  let file := split dot key in
  {| s3Event := ev;
     importOffset := match offset with Some n => n | None => 0 end;
     bucket := bucket_name ev;
     fileKey := key;
     userId := hd [] file;
     listId := nth_error file 1;
     fileExt := last file [];
     corruptedEmails := [];
     recipients := [];
     totalRecipientsCount := 0;
     lambdaName := functionName;
     headerMapping := None |}.

(** The body of the ['data'] handler of [parseCSV].  The first thing it
    evaluates is [base64url.encode(data.email)]: for a row without an
    [email] column the argument is [undefined], the encoder throws, and
    no recipient is built ([None]). *)
Definition newRecp (this : Service) (now : Z) (data : object jsstring)
  : option Recipient.t :=
  let mapping :=
    match headerMapping this with
    | Some m => m
    | None => []
    end in
  match get data (js "email") with
  | None => None
  | Some email =>
      Some
        {| Recipient.id := base64url_encode email;
           Recipient.userId := userId this;
           Recipient.listId := listId this;
           Recipient.email := Some email;
           Recipient.metadata :=
             fold_left (fun md kv => set md (snd kv) (get data (fst kv)))
               mapping [];
           Recipient.status := statuses_subscribed;
           Recipient.isConfirmed := true;
           Recipient.createdAt := now |}
  end.

(** The rows in turn: once the handler has thrown, the stream does not
    reach ['end'] ([None]). *)
Fixpoint parseRows (this : Service) (clock : nat -> Z) (i : nat)
    (rows : list (object jsstring)) : option (list Recipient.t) :=
  match rows with
  | [] => Some []
  | data :: rest =>
      match newRecp this (clock i) data with
      | None => None
      | Some newRecipient =>
          match parseRows this clock (S i) rest with
          | None => None
          | Some recipients => Some (newRecipient :: recipients)
          end
      end
  end.

(** [parseCSV]: the recipients handed to the callback at ['end'], or
    [None] when the callback is never called. *)
Definition parseCSV (env : Env) (this : Service) (csvString : jsstring)
  : option (list Recipient.t) :=
  parseRows this (rowTime env) 0 (csv_fromString csvString).

(** [parseFile].  The object is requested first; the extension is looked
    at in the callback.  When [JSON.parse] throws inside the callback,
    or when [parseCSV] never calls back, the promise is never settled. *)
Definition parseFile (env : Env) (this : Service)
  : Run (list Recipient.t) Value :=
  let requested := [EGetObject (bucket this) (fileKey this)] in
  match getObject env with
  | GetObjectErr err =>
      {| outcome := Rejected (VError err); after := this;
         trace := requested |}
  | GetObjectData Metadata Body =>
      if jsstring_eqb (fileExt this) (js "csv") then
        match JSON_parse Metadata with
        | None =>
            {| outcome := Pending; after := this;
               trace := requested ++ [EJsonParse Metadata] |}
        | Some mapping =>
            let this1 := set_headerMapping this (Some mapping) in
            {| outcome :=
                 match parseCSV env this1 Body with
                 | Some parsedRecipients => Fulfilled parsedRecipients
                 | None => Pending
                 end;
               after := this1;
               trace :=
                 requested ++ [EJsonParse Metadata; ECsvFromString Body] |}
        end
      else
        {| outcome :=
             Rejected (VString (fileExt this ++ js " is not supported"));
           after := this;
           trace := requested |}
  end.

(** [importAll] *)
Definition importAll (env : Env) (this : Service) : Run Value Value :=
  let parsed := parseFile env this in
  match outcome parsed with
  | Fulfilled parsedRecipients =>
      let this1 :=
        set_totalRecipientsCount (after parsed)
          (Z.of_nat (length parsedRecipients)) in
      let (kept, this2) := filterRecipients this1 parsedRecipients in
      let this3 := set_recipients this2 kept in
      let saved := saveRecipients env (saveAll env) this3 in
      {| outcome :=
           match outcome saved with
           | Fulfilled v => Fulfilled v
           | Rejected err => Rejected (VError err)
           | Pending => Pending
           end;
         after := after saved;
         trace := trace parsed ++ trace saved |}
  | Rejected reason =>
      {| outcome := Rejected reason; after := after parsed;
         trace := trace parsed |}
  | Pending =>
      {| outcome := Pending; after := after parsed; trace := trace parsed |}
  end.

End WithLibs.

(** ** Sample data *)

Module Demo.

(** Stand-ins for the imported libraries: keys without percent escapes
    (on which [querystring.unescape] is the identity), an encoder that
    leaves the address as it is, a metadata object without mappings, and
    a CSV reader that yields one row per line, with the single column
    [email]. *)
Fixpoint lines (cur : jsstring) (s : jsstring) : list jsstring :=
  match s with
  | [] => match cur with [] => [] | _ => [rev cur] end
  | c :: t =>
      if N.eqb c 10 then
        match cur with [] => lines [] t | _ => rev cur :: lines [] t end
      else lines (c :: cur) t
  end.

#[global] Instance plainLibs : Libs := {
  querystring_unescape := fun s => s;
  base64url_encode := fun s => s;
  JSON_parse := fun _ => Some [];
  csv_fromString := fun s => map (fun l => [(js "email", l)]) (lines [] s);
  statuses_subscribed := js "subscribed"
}.

(** The recipients a reader handed over, when it did. *)
Definition handed (parsed : option (list Recipient.t)) : list Recipient.t :=
  match parsed with
  | Some l => l
  | None => []
  end.

Definition upload (key : string) : S3Event :=
  {| bucket_name := js "imports"; object_key := js key |}.

Definition recipientOf (address : string) : Recipient.t :=
  {| Recipient.id := js address;
     Recipient.userId := js "user";
     Recipient.listId := Some (js "list");
     Recipient.email := Some (js address);
     Recipient.metadata := [];
     Recipient.status := js "subscribed";
     Recipient.isConfirmed := true;
     Recipient.createdAt := 0 |}.

(** A service that has fetched and filtered [n] valid recipients. *)
Definition loaded (n : nat) (offset : Z) : Service :=
  set_recipients
    (set_totalRecipientsCount
       (constructor (upload "user.list.csv") (Some offset) (js "importer"))
       (Z.of_nat n))
    (repeat (recipientOf "a@b.com") n).

Definition boom : JsError :=
  {| message := js "ProvisionedThroughputExceeded"; stack := js "at saveAll" |}.

(** An environment: the S3 answer, the [saveAll] answers, the lambda
    client's answer. *)
Definition world (fetched : GetObjectResponse) (answers : list SaveResponse)
    (r : InvokeResponse) : Env :=
  {| getObject := fetched;
     rowTime := fun i => Z.of_nat i;
     saveAll := answers;
     invoke := r;
     dateString := js "Tue Nov 03 2026" |}.

Definition csvObject (body : string) : GetObjectResponse :=
  GetObjectData (JString (js "{}")) (js body).

Definition ack : InvokeResponse :=
  InvokeData (JObject [(js "StatusCode", JNumber 202)]).

(** An item the store reports as not written. *)
Definition unwritten : jsval := JObject [(js "PutRequest", JObject [])].

(** The partial-failure map of a DynamoDB batch write: an object keyed by
    table name, not an Array. *)
Definition unprocessedMap : jsval :=
  JObject [(js "recipients", JArray [unwritten])].

(** Three rows, the second without an address; the store takes the one
    chunk in full. *)
Definition threeRows : Env :=
  world
    (GetObjectData (JString (js "{}"))
       (js "a@b.com" ++ [10%N] ++ js "not-an-email" ++ [10%N] ++ js "c@d.com"))
    [SaveResolves JUndefined 100000] ack.

End Demo.

(** ** Vocabulary of the properties *)

(** The [email] values of the rows, when every row has one. *)
Fixpoint rowEmails (rows : list (object jsstring)) : option (list jsstring) :=
  match rows with
  | [] => Some []
  | data :: rest =>
      match get data (js "email") with
      | None => None
      | Some email =>
          match rowEmails rest with
          | None => None
          | Some emails => Some (email :: emails)
          end
      end
  end.

(** A non-empty run of code units none of which is white space. *)
Definition solid (u : jsstring) : Prop :=
  u <> [] /\ forallb nonWhiteSpace u = true.

(** Some substring has the shape [a @ b . c] with solid parts. *)
Definition containsAddress (s : jsstring) : Prop :=
  exists pre a b c post,
    s = pre ++ (a ++ [at_sign] ++ b ++ [dot] ++ c) ++ post
    /\ solid a /\ solid b /\ solid c.

(** The reading of the shape that refuses white space anywhere: the whole
    string is [a @ b . c], with non-empty parts, and holds no white
    space. *)
Definition wholeAddress (s : jsstring) : Prop :=
  (exists a b c,
      s = a ++ [at_sign] ++ b ++ [dot] ++ c
      /\ a <> [] /\ b <> [] /\ c <> [])
  /\ forallb nonWhiteSpace s = true.

(** The batch [saveRecipients] submits in a given state. *)
Definition batchOf (this : Service) : list Recipient.t :=
  slice (recipients this) (importOffset this)
    (importOffset this + maxBatchSize).

(** A run that starts with one more external call. *)
Definition preceded {V E : Type} (e : Event) (r : Run V E) : Run V E :=
  {| outcome := outcome r; after := after r; trace := e :: trace r |}.

(** An outcome that is no rejection and carries no status: the promise
    stays pending, or is fulfilled with [undefined] or with the lambda
    client's acknowledgement. *)
Definition plainOutcome (p : Promise Value JsError) : Prop :=
  match p with
  | Pending | Fulfilled VUndefined | Fulfilled (VData _) => True
  | _ => False
  end.

(** A [saveAll] event is bounded when its batch holds at most 25. *)
Definition chunkBounded (e : Event) : Prop :=
  match e with
  | ESaveAll recipientsBatch =>
      Z.of_nat (length recipientsBatch) <= maxBatchSize
  | _ => True
  end.

(** An answer on the path without an Array. *)
Definition plainAnswer (a : SaveResponse) : Prop :=
  match a with
  | SaveRejects _ => True
  | SaveResolves u _ => instanceofArray u = false
  end.

(** [haltsForTime answers this halted]: started in [this], the run
    completes one or more chunks, the last of which comes back with too
    little time left; [halted] is [this] once that chunk has been
    accounted for. *)
Inductive haltsForTime : list SaveResponse -> Service -> Service -> Prop :=
| halts_here u remaining rest this :
    importOffset this < Z.of_nat (length (recipients this)) ->
    timeEnough remaining = false ->
    haltsForTime (SaveResolves u remaining :: rest) this
      (advanceOffset this u (batchOf this))
| halts_later u remaining rest this halted :
    importOffset this < Z.of_nat (length (recipients this)) ->
    timeEnough remaining = true ->
    haltsForTime rest (advanceOffset this u (batchOf this)) halted ->
    haltsForTime (SaveResolves u remaining :: rest) this halted.

(** The request [invokeLambda] sends from a given state. *)
Definition redispatch (this : Service) : InvokeParams :=
  {| FunctionName := lambdaName this;
     InvocationType := js "Event";
     InvokePayload :=
       {| Records_s3 := s3Event this;
          payload_importOffset := importOffset this |} |}.

(** Does the event build an import status (in a promise no one holds)? *)
Definition buildsStatus (e : Event) : bool :=
  match e with
  | EOrphan (Fulfilled (VStatus _)) | EOrphan (Rejected (VStatus _)) => true
  | _ => false
  end.

(** Does the event fetch the source or decode it? *)
Definition fetchesOrDecodes (e : Event) : bool :=
  match e with
  | EGetObject _ _ | EJsonParse _ | ECsvFromString _ => true
  | _ => false
  end.

(** An answer that reports no more unwritten items than a batch holds. *)
Definition atMostBatch (a : SaveResponse) : Prop :=
  match a with
  | SaveRejects _ => True
  | SaveResolves u _ => array_length u <= maxBatchSize
  end.

(** Is the event a re-dispatch request? *)
Definition isInvoke (e : Event) : bool :=
  match e with
  | EInvoke _ => true
  | _ => false
  end.

(** An answer after which the run goes on: the chunk is taken in full
    and there is time left. *)
Definition goesOn (a : SaveResponse) : Prop :=
  match a with
  | SaveRejects _ => False
  | SaveResolves u remaining =>
      instanceofArray u = false /\ timeEnough remaining = true
  end.

(** The verdict of [filterByEmail], without its effect. *)
Definition accepted (recipient : Recipient.t) : bool :=
  Regex.test emailPattern (ToString (Recipient.email recipient)).

(** ** The S3 client getter *)

(** The client the service holds: the one handed to the constructor, or
    one it made itself with [new AWS.S3({ region })]. *)
Inductive S3Client : Type :=
| GivenClient (handle : nat)
| NewClient (region : jsstring).

(** [process.env.SERVERLESS_REGION || 'us-east-1']: an unset variable and
    the empty string are both falsy. *)
Definition regionOf (SERVERLESS_REGION : option jsstring) : jsstring :=
  match SERVERLESS_REGION with
  | Some (c :: r) => c :: r
  | _ => js "us-east-1"
  end.

(** [get s3Client()]: the client returned, and [this.s3] afterwards.
    [None] is a constructor argument that was [undefined] or [null]. *)
Definition s3Client (s3 : option S3Client)
    (SERVERLESS_REGION : option jsstring) : S3Client * option S3Client :=
  match s3 with
  | Some client => (client, Some client)
  | None =>
      let client := NewClient (regionOf SERVERLESS_REGION) in
      (client, Some client)
  end.

(** ** Vocabulary of the further properties *)

(** [parts.join(sep)] *)
Fixpoint join (sep : N) (parts : list jsstring) : jsstring :=
  match parts with
  | [] => []
  | p :: rest =>
      match rest with
      | [] => p
      | _ => p ++ sep :: join sep rest
      end
  end.

(** Is the event a call to [Recipient.saveAll]? *)
Definition isSaveAll (e : Event) : bool :=
  match e with
  | ESaveAll _ => true
  | _ => false
  end.

(** How an execution of [saveRecipients] ends: a [saveAll] call that is
    never answered, the offset at the end of the list, a rejected
    [saveAll] call, a re-dispatch that is acknowledged, a re-dispatch
    that fails. *)
Inductive Ending : Type :=
| Unanswered
| Done
| SaveFailed (err : JsError)
| Dispatched (data : jsval)
| DispatchFailed (err : JsError).

(** What an ending adds to the trace after the [saveAll] calls. *)
Definition endingEvents (env : Env) (final : Service) (e : Ending)
  : list Event :=
  match e with
  | Unanswered => []
  | Done => [EOrphan (Fulfilled (VStatus (successStatus env final)))]
  | SaveFailed err =>
      [EOrphan (Rejected (VStatus (failedStatus env final err)))]
  | Dispatched _ => [EInvoke (redispatch final)]
  | DispatchFailed err =>
      [EInvoke (redispatch final);
       EOrphan (Rejected (VStatus (failedStatus env final err)))]
  end.

(** How the promise settles for an ending. *)
Definition endingOutcome (e : Ending) : Promise Value JsError :=
  match e with
  | Unanswered => Pending
  | Dispatched data => Fulfilled (VData data)
  | Done | SaveFailed _ | DispatchFailed _ => Fulfilled VUndefined
  end.

(** When an ending can occur. *)
Definition endingAllowed (env : Env) (final : Service) (e : Ending) : Prop :=
  match e with
  | Done => Z.of_nat (length (recipients final)) <= importOffset final
  | Dispatched data => invoke env = InvokeData data
  | DispatchFailed err => invoke env = InvokeErr err
  | Unanswered | SaveFailed _ => True
  end.


(** [this] as [importAll] hands it to [saveRecipients] once [parseFile]
    has resolved with [parsed]. *)
Definition prepared (parsedThis : Service) (parsed : list Recipient.t)
  : Service :=
  let this1 :=
    set_totalRecipientsCount parsedThis (Z.of_nat (length parsed)) in
  set_recipients (snd (filterRecipients this1 parsed))
    (fst (filterRecipients this1 parsed)).

(** Sample data: a reader whose rows have the single column [name], and
    an upload read with it. *)
Module Sample.

Definition nameLibs : Libs := {|
  querystring_unescape := fun s => s;
  base64url_encode := fun s => s;
  JSON_parse := fun _ => Some [(js "name", js "fullName")];
  csv_fromString :=
    fun s => map (fun l => [(js "name", l)]) (Demo.lines [] s);
  statuses_subscribed := js "subscribed"
|}.

Definition names : Env :=
  Demo.world
    (GetObjectData (JString (js "{}")) (js "Ada" ++ [10%N] ++ js "Grace"))
    [] Demo.ack.

(** 30 recipients; the first chunk comes back with 50 seconds left. *)
Definition firstWindow : Env :=
  Demo.world (Demo.csvObject "a@b.com")
    [SaveResolves JUndefined 50000] Demo.ack.

(** 30 rows with an address each. *)
Definition thirtyRows : GetObjectResponse :=
  GetObjectData (JString (js "{}"))
    (concat (repeat (js "a@b.com" ++ [10%N]) 30)).

(** First execution: the chunk of 25 comes back with 50 seconds left. *)
Definition firstRun : Env :=
  Demo.world thirtyRows [SaveResolves JUndefined 50000] Demo.ack.

(** Second execution: the same object, a generous deadline. *)
Definition secondRun : Env :=
  Demo.world thirtyRows [SaveResolves JUndefined 100000] Demo.ack.

End Sample.

(** * Properties *)

Lemma jsstring_eqb_eq (a b : jsstring) : jsstring_eqb a b = true <-> a = b.
Proof.
  unfold jsstring_eqb. destruct (list_eq_dec N.eq_dec a b); split; congruence.
Qed.

(** ** The matcher decides the language *)

Module RegexFacts.
Import Regex.

#[local] Hint Constructors lang : core.

Lemma lang_cat_inv (r s : regex) (w : jsstring) :
  lang (Cat r s) w <-> exists u v, w = u ++ v /\ lang r u /\ lang s v.
Proof.
  split.
  - intro H. inversion H; subst. eauto.
  - intros (u & v & -> & Hu & Hv). auto.
Qed.

Lemma lang_alt_inv (r s : regex) (w : jsstring) :
  lang (Alt r s) w <-> lang r w \/ lang s w.
Proof.
  split.
  - intro H. inversion H; subst; auto.
  - intros [H | H]; auto.
Qed.

Lemma lang_class_inv (p : N -> bool) (w : jsstring) :
  lang (Class p) w <-> exists c, w = [c] /\ p c = true.
Proof.
  split.
  - intro H. inversion H; subst. eauto.
  - intros (c & -> & H). auto.
Qed.

Lemma lang_eps_inv (w : jsstring) : lang Eps w <-> w = [].
Proof.
  split.
  - intro H. now inversion H.
  - intros ->. auto.
Qed.

Lemma lang_void_inv (w : jsstring) : lang Void w <-> False.
Proof. split; intro H; inversion H. Qed.

Lemma nullable_spec (r : regex) : nullable r = true <-> lang r [].
Proof.
  induction r; simpl.
  - rewrite lang_void_inv. split; [discriminate | tauto].
  - rewrite lang_eps_inv. tauto.
  - rewrite lang_class_inv. split; [discriminate|].
    intros (c & E & _). discriminate.
  - rewrite andb_true_iff, lang_cat_inv, IHr1, IHr2. split.
    + intros [H1 H2]. exists [], []. auto.
    + intros (u & v & E & Hu & Hv). symmetry in E.
      apply app_eq_nil in E as [-> ->]. auto.
  - rewrite orb_true_iff, lang_alt_inv, IHr1, IHr2. tauto.
  - split; auto.
Qed.

(** A non-empty word of [Star r] starts with a non-empty word of [r]. *)
Lemma lang_star_cons (r : regex) (w : jsstring) :
  lang (Star r) w ->
  forall c s, w = c :: s ->
  exists u v, s = u ++ v /\ lang r (c :: u) /\ lang (Star r) v.
Proof.
  intro H. remember (Star r) as q eqn:Eq.
  induction H; try discriminate; intros c0 s0 Ew.
  injection Eq as ->.
  destruct u as [|a u].
  - simpl in Ew. apply (IHlang2 eq_refl _ _ Ew).
  - simpl in Ew. injection Ew as -> <-.
    exists u, v. auto.
Qed.

(** Words of [Cat r s] that start with [c]. *)
Lemma lang_cat_cons (r s : regex) (c : N) (w : jsstring) :
  lang (Cat r s) (c :: w) <->
  (exists u v, w = u ++ v /\ lang r (c :: u) /\ lang s v) \/
  (lang r [] /\ lang s (c :: w)).
Proof.
  rewrite lang_cat_inv. split.
  - intros (u & v & E & Hu & Hv). destruct u as [|a u]; simpl in E.
    + subst v. auto.
    + injection E as <- ->. left. eauto.
  - intros [(u & v & -> & Hu & Hv) | [Hu Hv]].
    + exists (c :: u), v. auto.
    + exists [], (c :: w). auto.
Qed.

Lemma deriv_spec (c : N) (r : regex) (s : jsstring) :
  lang (deriv c r) s <-> lang r (c :: s).
Proof.
  revert s. induction r; intro w; simpl.
  - rewrite !lang_void_inv. tauto.
  - rewrite lang_void_inv, lang_eps_inv. split; [tauto | discriminate].
  - rewrite lang_class_inv. destruct (p c) eqn:E.
    + rewrite lang_eps_inv. split.
      * intros ->. eauto.
      * intros (a & Ea & _). now injection Ea.
    + rewrite lang_void_inv. split; [tauto|].
      intros (a & Ea & Ha). injection Ea as -> _. congruence.
  - rewrite lang_cat_cons. destruct (nullable r1) eqn:En.
    + rewrite lang_alt_inv, lang_cat_inv, IHr2. split.
      * intros [(u & v & -> & Hu & Hv) | H].
        -- left. exists u, v. rewrite <- IHr1. auto.
        -- right. split; [now apply nullable_spec | exact H].
      * intros [(u & v & -> & Hu & Hv) | [_ H]]; [left | now right].
        exists u, v. rewrite IHr1. auto.
    + rewrite lang_cat_inv. split.
      * intros (u & v & -> & Hu & Hv). left. exists u, v. rewrite <- IHr1. auto.
      * intros [(u & v & -> & Hu & Hv) | [H _]].
        -- exists u, v. rewrite IHr1. auto.
        -- apply nullable_spec in H. congruence.
  - rewrite !lang_alt_inv, IHr1, IHr2. tauto.
  - rewrite lang_cat_inv. split.
    + intros (u & v & -> & Hu & Hv).
      change (c :: u ++ v) with ((c :: u) ++ v).
      constructor; auto. now apply IHr.
    + intro H.
      destruct (lang_star_cons _ _ H c w eq_refl) as (u & v & -> & Hu & Hv).
      exists u, v. rewrite IHr. auto.
Qed.

Lemma matchPrefix_spec (r : regex) (s : jsstring) :
  matchPrefix r s = true <-> exists u v, s = u ++ v /\ lang r u.
Proof.
  revert r. induction s as [|c t IH]; intro r; simpl.
  - rewrite orb_false_r, nullable_spec. split.
    + intro H. exists [], []. auto.
    + intros (u & v & E & H). symmetry in E.
      apply app_eq_nil in E as [-> _]. exact H.
  - rewrite orb_true_iff, nullable_spec, IH. split.
    + intros [H | (u & v & -> & H)].
      * exists [], (c :: t). auto.
      * exists (c :: u), v. split; [reflexivity | now apply deriv_spec].
    + intros (u & v & E & H). destruct u as [|a u]; simpl in E.
      * now left.
      * injection E as -> ->. right. exists u, v.
        split; [reflexivity | now apply deriv_spec].
Qed.

(** [test] succeeds exactly when some substring is in the language. *)
Lemma test_spec (r : regex) (s : jsstring) :
  test r s = true <->
  exists pre u post, s = pre ++ u ++ post /\ lang r u.
Proof.
  induction s as [|c t IH]; cbn [test].
  - rewrite orb_false_r, matchPrefix_spec. split.
    + intros (u & v & E & H). exists [], u, v. auto.
    + intros (pre & u & post & E & H). symmetry in E.
      apply app_eq_nil in E as [-> E]. apply app_eq_nil in E as [-> ->].
      exists [], []. auto.
  - rewrite orb_true_iff, matchPrefix_spec, IH. split.
    + intros [(u & v & E & H) | (pre & u & post & -> & H)].
      * exists [], u, v. auto.
      * exists (c :: pre), u, post. auto.
    + intros (pre & u & post & E & H). destruct pre as [|a pre]; simpl in E.
      * left. exists u, post. auto.
      * injection E as -> ->. right. exists pre, u, post. auto.
Qed.

(** Words of [Star (Class p)] and [Plus (Class p)]. *)
Lemma lang_star_class (p : N -> bool) (u : jsstring) :
  lang (Star (Class p)) u <-> forallb p u = true.
Proof.
  split.
  - intro H. remember (Star (Class p)) as q eqn:Eq.
    induction H; try discriminate; auto.
    injection Eq as ->. apply lang_class_inv in H as (c & -> & Hc).
    simpl. rewrite Hc. now apply IHlang2.
  - induction u as [|c u IH]; simpl; intro H; auto.
    apply andb_true_iff in H as [Hc Hu].
    change (c :: u) with ([c] ++ u). auto.
Qed.

Lemma lang_plus_class (p : N -> bool) (u : jsstring) :
  lang (Plus (Class p)) u <-> u <> [] /\ forallb p u = true.
Proof.
  unfold Plus. rewrite lang_cat_inv. split.
  - intros (a & b & -> & Ha & Hb).
    apply lang_class_inv in Ha as (c & -> & Hc).
    apply lang_star_class in Hb.
    split; [discriminate | simpl; now rewrite Hc, Hb].
  - intros [Hne H]. destruct u as [|c u]; [congruence|].
    simpl in H. apply andb_true_iff in H as [Hc Hu].
    exists [c], u. repeat split; [now constructor | now apply lang_star_class].
Qed.

Lemma lang_lit (c : N) (u : jsstring) : lang (Lit c) u <-> u = [c].
Proof.
  unfold Lit. rewrite lang_class_inv. split.
  - intros (a & -> & H). apply N.eqb_eq in H. now subst.
  - intros ->. exists c. split; [reflexivity | apply N.eqb_refl].
Qed.

End RegexFacts.

(** ** The validation filter *)

Section Filter.

Import Regex RegexFacts.

Lemma emailPattern_lang (u : jsstring) :
  lang emailPattern u <->
  exists a b c,
    u = a ++ [at_sign] ++ b ++ [dot] ++ c /\ solid a /\ solid b /\ solid c.
Proof.
  unfold emailPattern, solid. split.
  - intro H.
    apply lang_cat_inv in H as (a & r1 & -> & Ha & H).
    apply lang_cat_inv in H as (x & r2 & -> & Hx & H).
    apply lang_cat_inv in H as (b & r3 & -> & Hb & H).
    apply lang_cat_inv in H as (y & c & -> & Hy & Hc).
    apply lang_lit in Hx as ->. apply lang_lit in Hy as ->.
    apply lang_plus_class in Ha, Hb, Hc.
    exists a, b, c. auto.
  - intros (a & b & c & -> & Ha & Hb & Hc).
    apply lang_plus_class in Ha, Hb, Hc.
    repeat (apply lang_cat; [assumption || (apply lang_lit; reflexivity) |]).
    assumption.
Qed.

Lemma test_emailPattern (s : jsstring) :
  test emailPattern s = true <-> containsAddress s.
Proof.
  rewrite test_spec. unfold containsAddress. split.
  - intros (pre & u & post & -> & H).
    apply emailPattern_lang in H as (a & b & c & -> & H).
    exists pre, a, b, c, post. auto.
  - intros (pre & a & b & c & post & -> & H).
    exists pre, (a ++ [at_sign] ++ b ++ [dot] ++ c), post.
    split; [reflexivity|]. apply emailPattern_lang. eauto.
Qed.

(** An address in the strict reading is accepted: the converse is what
    fails. *)
Lemma wholeAddress_contains (s : jsstring) :
  wholeAddress s -> containsAddress s.
Proof.
  intros [(a & b & c & -> & Ha & Hb & Hc) Hs].
  rewrite !forallb_app in Hs.
  repeat (apply andb_true_iff in Hs as [? Hs]).
  exists [], a, b, c, []. rewrite app_nil_r. unfold solid. auto.
Qed.

End Filter.

(** C4 (as amended): the filter accepts a candidate exactly when its
    email, read as a string, contains a substring of the shape
    [a @ b . c] whose three parts are non-empty and free of white space;
    text around that substring, white space included, does not matter.
    An accepted candidate leaves [this] as it was, and a rejected
    candidate's email is appended to [corruptedEmails]. *)
Theorem filterByEmail_accepts_substring
    (this : Service) (recipient : Recipient.t) :
  (fst (filterByEmail this recipient) = true
   <-> containsAddress (ToString (Recipient.email recipient)))
  /\ (fst (filterByEmail this recipient) = true
      -> snd (filterByEmail this recipient) = this)
  /\ (fst (filterByEmail this recipient) = false
      -> corruptedEmails (snd (filterByEmail this recipient))
         = corruptedEmails this ++ [Recipient.email recipient]).
Proof.
  unfold filterByEmail. rewrite <- test_emailPattern.
  destruct (Regex.test emailPattern (ToString (Recipient.email recipient)));
    simpl; repeat split; intros; congruence.
Qed.

(** C4 (as stated) fails: an address followed by a blank and more text
    holds white space, and the filter accepts it. *)
Lemma filterByEmail_accepts_white_space :
  ~ (forall (this : Service) (recipient : Recipient.t),
        fst (filterByEmail this recipient) = true
        <-> wholeAddress (ToString (Recipient.email recipient))).
Proof.
  intro claim.
  destruct (claim (Demo.loaded 0 0) (Demo.recipientOf "a@b.c d")) as [H _].
  assert (A : fst (filterByEmail (Demo.loaded 0 0)
                     (Demo.recipientOf "a@b.c d")) = true)
    by (vm_compute; reflexivity).
  destruct (H A) as [_ W]. vm_compute in W. discriminate.
Qed.

(** [filter] keeps or reports every element, and touches nothing else. *)
Lemma filterRecipients_counts (l : list Recipient.t) (this : Service) :
  (length (fst (filterRecipients this l))
   + length (corruptedEmails (snd (filterRecipients this l)))
   = length l + length (corruptedEmails this))%nat.
Proof.
  revert this. induction l as [|r l IH]; intro this; simpl; [reflexivity|].
  unfold filterByEmail.
  destruct (Regex.test emailPattern (ToString (Recipient.email r))).
  - specialize (IH this). destruct (filterRecipients this l) as [kept this2].
    simpl in *. lia.
  - specialize (IH (set_corruptedEmails this
                      (corruptedEmails this ++ [Recipient.email r]))).
    destruct (filterRecipients _ l) as [kept this2].
    simpl in *. rewrite length_app in IH. simpl in IH. lia.
Qed.

Lemma filterRecipients_frame (l : list Recipient.t) (this : Service) :
  let this' := snd (filterRecipients this l) in
  importOffset this' = importOffset this
  /\ totalRecipientsCount this' = totalRecipientsCount this
  /\ s3Event this' = s3Event this
  /\ lambdaName this' = lambdaName this.
Proof.
  revert this. induction l as [|r l IH]; intro this; simpl; [auto|].
  unfold filterByEmail.
  destruct (Regex.test emailPattern (ToString (Recipient.email r))).
  - specialize (IH this). destruct (filterRecipients this l). exact IH.
  - specialize (IH (set_corruptedEmails this
                      (corruptedEmails this ++ [Recipient.email r]))).
    destruct (filterRecipients _ l). exact IH.
Qed.

(** The filter is order preserving: what it keeps is the [filter] of the
    list by the pattern. *)
Lemma filterRecipients_kept (l : list Recipient.t) (this : Service) :
  fst (filterRecipients this l)
  = filter (fun r => Regex.test emailPattern (ToString (Recipient.email r))) l.
Proof.
  revert this. induction l as [|r l IH]; intro this; simpl; [reflexivity|].
  unfold filterByEmail.
  destruct (Regex.test emailPattern (ToString (Recipient.email r))).
  - specialize (IH this). destruct (filterRecipients this l).
    simpl in *. now rewrite IH.
  - specialize (IH (set_corruptedEmails this
                      (corruptedEmails this ++ [Recipient.email r]))).
    destruct (filterRecipients _ l). exact IH.
Qed.

(** ** Batches *)

Lemma slice_length_le {A : Type} (l : list A) (start n : Z) :
  0 <= n -> Z.of_nat (length (slice l start (start + n))) <= n.
Proof.
  intro Hn. unfold slice. rewrite length_firstn, length_skipn.
  destruct (Z.ltb_spec start 0), (Z.ltb_spec (start + n) 0); lia.
Qed.

Lemma slice_length_in_range {A : Type} (l : list A) (start n : Z) :
  0 <= start <= Z.of_nat (length l) -> 0 <= n ->
  Z.of_nat (length (slice l start (start + n)))
  = Z.min n (Z.of_nat (length l) - start).
Proof.
  intros Hs Hn. unfold slice. rewrite length_firstn, length_skipn.
  destruct (Z.ltb_spec start 0), (Z.ltb_spec (start + n) 0); lia.
Qed.

Lemma saveRecipients_eq (env : Env) (answers : list SaveResponse)
    (this : Service) :
  saveRecipients env answers this =
  if importOffset this <? Z.of_nat (length (recipients this)) then
    catchHandler env
      match answers with
      | [] =>
          {| outcome := Pending; after := this;
             trace := [ESaveAll (batchOf this)] |}
      | SaveRejects err :: _ =>
          {| outcome := Rejected err; after := this;
             trace := [ESaveAll (batchOf this)] |}
      | SaveResolves u remaining :: rest =>
          if timeEnough remaining then
            preceded (ESaveAll (batchOf this))
              (saveRecipients env rest (advanceOffset this u (batchOf this)))
          else
            preceded (ESaveAll (batchOf this))
              (invokeLambda env (advanceOffset this u (batchOf this)))
      end
  else
    {| outcome := Fulfilled VUndefined; after := this;
       trace := [EOrphan (Fulfilled (VStatus (successStatus env this)))] |}.
Proof. destruct answers; reflexivity. Qed.

Lemma catchHandler_plain (env : Env) (r : Run Value JsError) :
  plainOutcome (outcome r) -> catchHandler env r = r.
Proof.
  unfold catchHandler. destruct (outcome r); simpl; tauto.
Qed.

Lemma catchHandler_outcome (env : Env) (r : Run Value JsError) :
  (forall s, outcome r <> Fulfilled (VStatus s)) ->
  (forall s, outcome r <> Fulfilled (VString s)) ->
  (forall e, outcome r <> Fulfilled (VError e)) ->
  plainOutcome (outcome (catchHandler env r)).
Proof.
  unfold catchHandler. intros H1 H2 H3.
  destruct (outcome r) as [[| s | e | d | s] | e |] eqn:E; simpl;
    try rewrite E; simpl; auto.
  - apply (H2 s); reflexivity.
  - apply (H3 e); reflexivity.
  - apply (H1 s); reflexivity.
Qed.

(** The promise of [saveRecipients] never rejects and never carries a
    status. *)
Lemma saveRecipients_plain (env : Env) (answers : list SaveResponse)
    (this : Service) :
  plainOutcome (outcome (saveRecipients env answers this)).
Proof.
  revert this. induction answers as [|a rest IH]; intro this;
    rewrite saveRecipients_eq;
    destruct (importOffset this <? Z.of_nat (length (recipients this)));
    try exact I.
  destruct a as [err | u remaining]; [exact I|].
  destruct (timeEnough remaining).
  - rewrite catchHandler_plain; apply IH.
  - apply catchHandler_outcome; unfold invokeLambda; simpl;
      destruct (invoke env); congruence.
Qed.

(** With time left, the run goes on with the next answer. *)
Lemma saveRecipients_continue (env : Env) (u : jsval) (remaining : Z)
    (rest : list SaveResponse) (this : Service) :
  importOffset this < Z.of_nat (length (recipients this)) ->
  timeEnough remaining = true ->
  saveRecipients env (SaveResolves u remaining :: rest) this
  = preceded (ESaveAll (batchOf this))
      (saveRecipients env rest (advanceOffset this u (batchOf this))).
Proof.
  intros Hlt Ht. rewrite saveRecipients_eq.
  apply Z.ltb_lt in Hlt. rewrite Hlt, Ht.
  apply catchHandler_plain. apply saveRecipients_plain.
Qed.

(** Once the offset has reached the number of valid recipients, the
    SUCCESS status is built, no call is made, and the method returns
    [undefined]. *)
Lemma saveRecipients_done (env : Env) (answers : list SaveResponse)
    (this : Service) :
  Z.of_nat (length (recipients this)) <= importOffset this ->
  saveRecipients env answers this
  = {| outcome := Fulfilled VUndefined; after := this;
       trace := [EOrphan (Fulfilled (VStatus (successStatus env this)))] |}.
Proof.
  intro H. rewrite saveRecipients_eq.
  apply Z.ltb_ge in H. now rewrite H.
Qed.

(** When a [saveAll] call rejects, the FAILED status is built from the
    offset as it stood before the call, the lambda is not invoked, and
    the promise is fulfilled with [undefined]. *)
Lemma saveRecipients_rejected (env : Env) (err : JsError)
    (rest : list SaveResponse) (this : Service) :
  importOffset this < Z.of_nat (length (recipients this)) ->
  saveRecipients env (SaveRejects err :: rest) this
  = {| outcome := Fulfilled VUndefined; after := this;
       trace := [ESaveAll (batchOf this);
                 EOrphan (Rejected (VStatus (failedStatus env this err)))] |}.
Proof.
  intro H. rewrite saveRecipients_eq.
  apply Z.ltb_lt in H. now rewrite H.
Qed.

(** Only [importOffset] changes while recipients are saved. *)
Lemma advanceOffset_frame (this : Service) (u : jsval)
    (batch : list Recipient.t) :
  let this' := advanceOffset this u batch in
  recipients this' = recipients this
  /\ corruptedEmails this' = corruptedEmails this
  /\ totalRecipientsCount this' = totalRecipientsCount this
  /\ s3Event this' = s3Event this
  /\ lambdaName this' = lambdaName this.
Proof.
  unfold advanceOffset.
  destruct (truthy u && instanceofArray u); simpl; auto.
Qed.

Lemma saveRecipients_frame (env : Env) (answers : list SaveResponse)
    (this : Service) :
  let this' := after (saveRecipients env answers this) in
  recipients this' = recipients this
  /\ corruptedEmails this' = corruptedEmails this
  /\ totalRecipientsCount this' = totalRecipientsCount this
  /\ s3Event this' = s3Event this
  /\ lambdaName this' = lambdaName this.
Proof.
  revert this. induction answers as [|a rest IH]; intro this;
    rewrite saveRecipients_eq;
    destruct (importOffset this <? Z.of_nat (length (recipients this)));
    simpl; auto.
  destruct a as [err | u remaining]; simpl; auto.
  destruct (timeEnough remaining).
  - rewrite catchHandler_plain by apply saveRecipients_plain.
    simpl. specialize (IH (advanceOffset this u (batchOf this))).
    pose proof (advanceOffset_frame this u (batchOf this)) as F.
    simpl in *. intuition congruence.
  - pose proof (advanceOffset_frame this u (batchOf this)) as F.
    unfold catchHandler, invokeLambda. simpl.
    destruct (invoke env); simpl; exact F.
Qed.

(** ** The chunk bound *)

Lemma batchOf_bounded (this : Service) :
  Z.of_nat (length (batchOf this)) <= maxBatchSize.
Proof. apply slice_length_le. unfold maxBatchSize. lia. Qed.

Lemma catchHandler_bounded (env : Env) (r : Run Value JsError) :
  Forall chunkBounded (trace r) ->
  Forall chunkBounded (trace (catchHandler env r)).
Proof.
  unfold catchHandler. intro H. destruct (outcome r); simpl; auto.
  apply Forall_app. split; [assumption|]. repeat constructor.
Qed.

Lemma saveRecipients_bounded (env : Env) (answers : list SaveResponse)
    (this : Service) :
  Forall chunkBounded (trace (saveRecipients env answers this)).
Proof.
  revert this. induction answers as [|a rest IH]; intro this;
    rewrite saveRecipients_eq;
    destruct (importOffset this <? Z.of_nat (length (recipients this)));
    try (repeat constructor; fail);
    apply catchHandler_bounded.
  - repeat constructor. apply batchOf_bounded.
  - destruct a as [err | u remaining].
    + repeat constructor. apply batchOf_bounded.
    + destruct (timeEnough remaining); simpl;
        constructor; try apply batchOf_bounded; [apply IH|].
      repeat constructor.
Qed.

(** C7: whatever the state and whatever the collaborators answer, every
    [Recipient.saveAll] call made by [saveRecipients], and so every one
    made by [importAll], receives at most 25 recipients. *)
Theorem saveAll_receives_at_most_25
    (libs : Libs) (env : Env) (answers : list SaveResponse) (this : Service) :
  maxBatchSize = 25
  /\ Forall chunkBounded (trace (saveRecipients env answers this))
  /\ Forall chunkBounded (trace (importAll env this)).
Proof.
  split; [reflexivity|]. split; [apply saveRecipients_bounded|].
  unfold importAll, parseFile.
  destruct (getObject env) as [err | md body]; simpl.
  - repeat constructor.
  - destruct (jsstring_eqb (fileExt this) (js "csv")); simpl.
    + destruct (JSON_parse md); simpl.
      * destruct (parseCSV _ _ _); simpl; [|repeat constructor].
        destruct (filterRecipients _ _) as [kept this2]. simpl.
        repeat constructor. apply saveRecipients_bounded.
      * repeat constructor.
    + repeat constructor.
Qed.

(** ** Advancing the offset *)

Lemma advanceOffset_not_array (this : Service) (u : jsval)
    (batch : list Recipient.t) :
  instanceofArray u = false ->
  advanceOffset this u batch
  = set_importOffset this
      (importOffset this + Z.min maxBatchSize (Z.of_nat (length batch))).
Proof.
  intro H. unfold advanceOffset. rewrite H, andb_false_r. reflexivity.
Qed.

Lemma advanceOffset_array (this : Service) (items : list jsval)
    (batch : list Recipient.t) :
  advanceOffset this (JArray items) batch
  = set_importOffset this
      (importOffset this + (maxBatchSize - Z.of_nat (length items))).
Proof. reflexivity. Qed.

Lemma advanceOffset_full_batch (this : Service) (u : jsval) :
  instanceofArray u = false ->
  advanceOffset this u (batchOf this)
  = set_importOffset this
      (importOffset this + Z.of_nat (length (batchOf this))).
Proof.
  intro Hu. rewrite advanceOffset_not_array by assumption.
  pose proof (batchOf_bounded this). f_equal. lia.
Qed.

Lemma batchOf_length (this : Service) :
  0 <= importOffset this <= Z.of_nat (length (recipients this)) ->
  Z.of_nat (length (batchOf this))
  = Z.min 25 (Z.of_nat (length (recipients this)) - importOffset this).
Proof.
  intro H. unfold batchOf, maxBatchSize.
  apply slice_length_in_range; lia.
Qed.

(** C10: when the outcome's [UnprocessedItems] is absent or is anything
    but an Array (an object-shaped map included), the chunk counts as
    written in full: [importOffset] grows by the length of the submitted
    batch, which for an offset that is not negative is the minimum of 25
    and the recipients that remain (at least 1), and nothing else of
    [this] changes.  The run goes on from that offset when there is time
    left, and otherwise ends with it, after a re-dispatch request whose
    payload carries it. *)
Theorem not_an_array_counts_as_written
    (env : Env) (u : jsval) (remaining : Z) (rest : list SaveResponse)
    (this : Service) :
  instanceofArray u = false ->
  importOffset this < Z.of_nat (length (recipients this)) ->
  let written := Z.of_nat (length (batchOf this)) in
  let this1 := advanceOffset this u (batchOf this) in
  let r := saveRecipients env (SaveResolves u remaining :: rest) this in
  importOffset this1 = importOffset this + written
  /\ (0 <= importOffset this ->
      written
      = Z.min 25 (Z.of_nat (length (recipients this)) - importOffset this)
      /\ 1 <= written <= 25)
  /\ (recipients this1 = recipients this
      /\ corruptedEmails this1 = corruptedEmails this
      /\ totalRecipientsCount this1 = totalRecipientsCount this
      /\ s3Event this1 = s3Event this
      /\ lambdaName this1 = lambdaName this)
  /\ this1 = set_importOffset this (importOffset this + written)
  /\ r = catchHandler env
           (preceded (ESaveAll (batchOf this))
              (if timeEnough remaining then saveRecipients env rest this1
               else invokeLambda env this1))
  /\ (timeEnough remaining = true ->
      trace r = ESaveAll (batchOf this) :: trace (saveRecipients env rest this1)
      /\ after r = after (saveRecipients env rest this1))
  /\ (timeEnough remaining = false ->
      importOffset (after r) = importOffset this + written
      /\ exists params tail,
           trace r = ESaveAll (batchOf this) :: EInvoke params :: tail
           /\ payload_importOffset (InvokePayload params)
              = importOffset this + written).
Proof.
  intros Hu Hlt written this1 r.
  pose proof (advanceOffset_full_batch this u Hu) as E.
  fold this1 written in E.
  assert (O : importOffset this1 = importOffset this + written)
    by (rewrite E; reflexivity).
  split; [exact O|]. split.
  { intro H0.
    assert (L : written
                = Z.min 25 (Z.of_nat (length (recipients this))
                            - importOffset this))
      by (apply batchOf_length; lia).
    split; [exact L | lia]. }
  split; [exact (advanceOffset_frame this u (batchOf this))|].
  split; [exact E|].
  assert (R : r = catchHandler env
                    (preceded (ESaveAll (batchOf this))
                       (if timeEnough remaining
                        then saveRecipients env rest this1
                        else invokeLambda env this1))).
  { unfold r. rewrite saveRecipients_eq.
    apply Z.ltb_lt in Hlt. rewrite Hlt. fold this1.
    now destruct (timeEnough remaining). }
  split; [exact R|]. split.
  - intro Ht. rewrite R, Ht.
    rewrite catchHandler_plain by apply saveRecipients_plain.
    split; reflexivity.
  - intro Ht. rewrite R, Ht.
    unfold catchHandler, invokeLambda, preceded.
    cbn [outcome after trace].
    destruct (invoke env) as [err | data]; cbn [after trace];
      (split; [exact O|]); do 2 eexists;
      (split; [reflexivity|]);
      cbn [InvokePayload payload_importOffset]; exact O.
Qed.

(** C10 at work: 30 recipients, and the store answers with its map of
    unprocessed items; the offset moves from 0 to 25. *)
Lemma not_an_array_counts_as_written_witness :
  instanceofArray Demo.unprocessedMap = false
  /\ importOffset (Demo.loaded 30 0)
     < Z.of_nat (length (recipients (Demo.loaded 30 0)))
  /\ importOffset
       (advanceOffset (Demo.loaded 30 0) Demo.unprocessedMap
          (batchOf (Demo.loaded 30 0)))
     = 25.
Proof.
  split; [reflexivity|]. split; [vm_compute; reflexivity|].
  refine (proj1 (not_an_array_counts_as_written
                   (Demo.world (Demo.csvObject "a@b.com") [] Demo.ack)
                   Demo.unprocessedMap 100000 [] (Demo.loaded 30 0) _ _)).
  - reflexivity.
  - vm_compute. reflexivity.
Defined.

(** On the path without an Array the offset only grows and stays within
    the list (the Array path is where it does not, see below). *)
Lemma saveRecipients_offset_within (env : Env) (answers : list SaveResponse)
    (this : Service) :
  Forall plainAnswer answers ->
  0 <= importOffset this <= Z.of_nat (length (recipients this)) ->
  importOffset this <= importOffset (after (saveRecipients env answers this))
  /\ importOffset (after (saveRecipients env answers this))
     <= Z.of_nat (length (recipients this)).
Proof.
  intro Hp. revert this.
  induction Hp as [|a rest Ha Hrest IH]; intros this H0;
    rewrite saveRecipients_eq;
    destruct (Z.ltb_spec (importOffset this)
                (Z.of_nat (length (recipients this)))) as [Hlt | Hge];
    simpl; try lia.
  destruct a as [err | u remaining]; simpl; [lia|].
  simpl in Ha.
  pose proof (advanceOffset_full_batch this u Ha) as E.
  assert (L : Z.of_nat (length (batchOf this))
              = Z.min 25 (Z.of_nat (length (recipients this))
                          - importOffset this))
    by (apply batchOf_length; lia).
  rewrite E.
  set (this1 := set_importOffset this _) in *.
  assert (B : importOffset this1
              = importOffset this + Z.of_nat (length (batchOf this)))
    by reflexivity.
  destruct (timeEnough remaining).
  - rewrite catchHandler_plain by apply saveRecipients_plain. simpl.
    assert (R : recipients this1 = recipients this) by reflexivity.
    specialize (IH this1). rewrite R in IH. lia.
  - unfold catchHandler, invokeLambda. simpl.
    destruct (invoke env); simpl; lia.
Qed.

(** The offset never goes back, as long as the store reports at most 25
    unwritten items per call. *)
Lemma advanceOffset_nondecreasing (this : Service) (u : jsval)
    (batch : list Recipient.t) :
  array_length u <= maxBatchSize ->
  importOffset this <= importOffset (advanceOffset this u batch).
Proof.
  intro H. unfold advanceOffset, maxBatchSize in *.
  destruct (truthy u && instanceofArray u);
    cbn [importOffset set_importOffset]; lia.
Qed.

Lemma saveRecipients_offset_nondecreasing (env : Env)
    (answers : list SaveResponse) (this : Service) :
  Forall atMostBatch answers ->
  importOffset this <= importOffset (after (saveRecipients env answers this)).
Proof.
  intro Hb. revert this.
  induction Hb as [|a rest Ha Hrest IH]; intro this;
    rewrite saveRecipients_eq;
    destruct (importOffset this <? Z.of_nat (length (recipients this)));
    simpl; try lia.
  destruct a as [err | u remaining]; simpl; [lia|].
  pose proof (advanceOffset_nondecreasing this u (batchOf this) Ha) as A.
  destruct (timeEnough remaining).
  - rewrite catchHandler_plain by apply saveRecipients_plain. simpl.
    specialize (IH (advanceOffset this u (batchOf this))). lia.
  - unfold catchHandler, invokeLambda. simpl.
    destruct (invoke env); simpl; lia.
Qed.

(** C3 fails on the Array path: with 10 recipients left, a batch of 10 is
    submitted, the store reports 3 of them unwritten, and the offset
    moves by 25 - 3 = 22 instead of the 7 written: past the end of the
    list, so that the run stops and the status counts 22 imported. *)
Theorem partial_last_chunk_overshoots :
  let this := Demo.loaded 10 0 in
  let r :=
    saveRecipients (Demo.world (Demo.csvObject "a@b.com") [] Demo.ack)
      [SaveResolves
         (JArray [Demo.unwritten; Demo.unwritten; Demo.unwritten]) 100000]
      this in
  length (recipients this) = 10%nat
  /\ length (batchOf this) = 10%nat
  /\ importOffset (after r) = 22
  /\ exists st,
       trace r = [ESaveAll (batchOf this); EOrphan (Fulfilled (VStatus st))]
       /\ Status.importStatus st = SUCCESS
       /\ Status.importedCount st = 22.
Proof.
  repeat split. eexists. repeat split.
Qed.

(** ** Checkpoint and re-dispatch *)

Lemma existsb_buildsStatus_chunks (chunks : list (list Recipient.t))
    (tail : list Event) :
  existsb buildsStatus (map ESaveAll chunks ++ tail)
  = existsb buildsStatus tail.
Proof. induction chunks; simpl; auto. Qed.

(** C6 (as amended): when the run halts for lack of time, the trace is
    the chunks saved so far followed by one re-dispatch request, whose
    payload carries the S3 event record the service was created with and
    the offset as it stands after the last completed chunk.  When the
    lambda client acknowledges the request, the promise is fulfilled
    with the acknowledgement and no status is built; when it answers
    with an error, the [catch] handler takes it and builds the FAILED
    status at that offset. *)
Theorem halt_redispatches_current_offset
    (env : Env) (answers : list SaveResponse) (this halted : Service) :
  haltsForTime answers this halted ->
  let r := saveRecipients env answers this in
  after r = halted
  /\ s3Event halted = s3Event this
  /\ lambdaName halted = lambdaName this
  /\ exists chunks,
       match invoke env with
       | InvokeData data =>
           outcome r = Fulfilled (VData data)
           /\ trace r = map ESaveAll chunks ++ [EInvoke (redispatch halted)]
           /\ existsb buildsStatus (trace r) = false
       | InvokeErr err =>
           outcome r = Fulfilled VUndefined
           /\ trace r
              = map ESaveAll chunks
                ++ [EInvoke (redispatch halted);
                    EOrphan (Rejected (VStatus (failedStatus env halted err)))]
       end.
Proof.
  induction 1 as [u remaining rest this Hlt Ht
                 | u remaining rest this halted Hlt Ht Hrest IH]; cbv zeta.
  - pose proof (advanceOffset_frame this u (batchOf this)) as F. simpl in F.
    rewrite saveRecipients_eq.
    apply Z.ltb_lt in Hlt. rewrite Hlt, Ht.
    unfold catchHandler, invokeLambda, preceded. simpl.
    destruct (invoke env) as [err | data]; simpl;
      (split; [reflexivity|]); (split; [tauto|]); (split; [tauto|]);
      exists [batchOf this]; auto.
  - pose proof (advanceOffset_frame this u (batchOf this)) as F. simpl in F.
    rewrite saveRecipients_continue by assumption.
    cbv zeta in IH. unfold preceded. cbn [outcome after trace].
    destruct IH as (Ha & Hs & Hn & chunks & IH).
    split; [exact Ha|]. split; [intuition congruence|].
    split; [intuition congruence|].
    exists (batchOf this :: chunks).
    destruct (invoke env) as [err | data].
    + destruct IH as [Ho Htr]. rewrite Ho, Htr. auto.
    + destruct IH as (Ho & Htr & Hb). rewrite Ho, Htr.
      repeat split. simpl.
      now rewrite existsb_buildsStatus_chunks.
Qed.

(** C6 at work: 30 recipients, the first chunk of 25 comes back with
    50 seconds left, and the request carries offset 25. *)
Lemma halt_redispatches_current_offset_witness :
  importOffset
    (after (saveRecipients (Demo.world (Demo.csvObject "a@b.com") [] Demo.ack)
              [SaveResolves JUndefined 50000] (Demo.loaded 30 0)))
  = 25.
Proof.
  rewrite (proj1 (halt_redispatches_current_offset
                    (Demo.world (Demo.csvObject "a@b.com") [] Demo.ack)
                    [SaveResolves JUndefined 50000] (Demo.loaded 30 0)
                    (advanceOffset (Demo.loaded 30 0) JUndefined
                       (batchOf (Demo.loaded 30 0)))
                    (halts_here JUndefined 50000 [] (Demo.loaded 30 0)
                       eq_refl eq_refl))).
  reflexivity.
Defined.

(** C6 (as stated) fails: when the lambda client answers the request
    with an error, the halted run builds a FAILED status. *)
Lemma halt_with_failed_dispatch_builds_status :
  ~ (forall (env : Env) (answers : list SaveResponse) (this halted : Service),
        haltsForTime answers this halted ->
        In (EInvoke (redispatch halted))
          (trace (saveRecipients env answers this))
        /\ existsb buildsStatus (trace (saveRecipients env answers this))
           = false).
Proof.
  intro claim.
  destruct (claim (Demo.world (Demo.csvObject "a@b.com") []
                     (InvokeErr Demo.boom))
              [SaveResolves JUndefined 50000] (Demo.loaded 30 0)
              (advanceOffset (Demo.loaded 30 0) JUndefined
                 (batchOf (Demo.loaded 30 0)))
              (halts_here JUndefined 50000 [] (Demo.loaded 30 0)
                 eq_refl eq_refl)) as [_ H].
  vm_compute in H. discriminate.
Qed.

(** ** What the caller receives *)

(** No run of [importAll] settles with a status, fulfilled or rejected:
    the only rejections are those of [parseFile]. *)
Lemma importAll_never_settles_with_status (libs : Libs) (env : Env)
    (this : Service) (st : Status.t) :
  outcome (importAll env this) <> Fulfilled (VStatus st)
  /\ outcome (importAll env this) <> Rejected (VStatus st).
Proof.
  unfold importAll, parseFile.
  destruct (getObject env) as [err | md body]; simpl;
    [split; discriminate|].
  destruct (jsstring_eqb (fileExt this) (js "csv")); simpl;
    [|split; discriminate].
  destruct (JSON_parse md); simpl; [|split; discriminate].
  destruct (parseCSV _ _ _); simpl; [|split; discriminate].
  destruct (filterRecipients _ _) as [kept this2]. simpl.
  pose proof (saveRecipients_plain env (saveAll env)
                (set_recipients this2 kept)) as P.
  destruct (outcome (saveRecipients env (saveAll env)
                       (set_recipients this2 kept))) as [[| | | |] | |];
    simpl in P; try contradiction; split; discriminate.
Qed.

(** C1 fails on the value: for a CSV object without rows, the object is
    fetched and decoded, no [saveAll] call is made, and a SUCCESS status
    with [importedCount] 0 is built; but it sits in a promise that is
    not returned, and [importAll] resolves with [undefined]. *)
Theorem empty_import_resolves_with_undefined :
  let this := constructor (Demo.upload "user.list.csv") None (js "importer") in
  let r := importAll (Demo.world (Demo.csvObject EmptyString) [] Demo.ack) this in
  outcome r = Fulfilled VUndefined
  /\ exists st,
       trace r = [EGetObject (js "imports") (js "user.list.csv");
                  EJsonParse (JString (js "{}"));
                  ECsvFromString [];
                  EOrphan (Fulfilled (VStatus st))]
       /\ Status.importStatus st = SUCCESS
       /\ Status.importedCount st = 0
       /\ Status.totalRecipientsCount st = 0
       /\ outcome r <> Fulfilled (VStatus st).
Proof.
  split; [reflexivity|]. eexists.
  split; [reflexivity|]. repeat split. discriminate.
Qed.

(** C2 fails on the value: with 30 recipients, the first chunk is saved
    and the second [saveAll] call rejects; the lambda is not invoked and
    a FAILED status with [importedCount] 25 and the error's message and
    stack is built, but it sits in a rejected promise that the handler
    does not return, and the promise of [saveRecipients] is fulfilled
    with [undefined]. *)
Theorem failed_import_resolves_with_undefined :
  let this := Demo.loaded 30 0 in
  let r :=
    saveRecipients (Demo.world (Demo.csvObject "a@b.com") [] Demo.ack)
      [SaveResolves JUndefined 100000; SaveRejects Demo.boom] this in
  outcome r = Fulfilled VUndefined
  /\ exists first second st,
       trace r = [ESaveAll first; ESaveAll second;
                  EOrphan (Rejected (VStatus st))]
       /\ length first = 25%nat
       /\ length second = 5%nat
       /\ Status.importStatus st = FAILED
       /\ Status.importedCount st = 25
       /\ Status.message st = Some (message Demo.boom)
       /\ Status.stackTrace st = Some (stack Demo.boom)
       /\ outcome r <> Rejected Demo.boom
       /\ outcome r <> Fulfilled (VStatus st).
Proof.
  split; [reflexivity|]. do 3 eexists.
  split; [reflexivity|]. repeat split; discriminate.
Qed.

(** ** Fetching and decoding *)

(** C5 (as amended): for a file whose extension is not [csv], the object
    is requested from S3 all the same, and that request is the only
    external call: nothing is decoded, nothing is saved, no status is
    built and [this] is unchanged.  The import is rejected with the
    text [<extension> is not supported] when the request succeeds, and
    with the S3 error when it fails. *)
Theorem other_format_rejected_after_fetch
    (libs : Libs) (env : Env) (this : Service) :
  fileExt this <> js "csv" ->
  let r := importAll env this in
  trace r = [EGetObject (bucket this) (fileKey this)]
  /\ after r = this
  /\ match getObject env with
     | GetObjectErr err => outcome r = Rejected (VError err)
     | GetObjectData _ _ =>
         outcome r
         = Rejected (VString (fileExt this ++ js " is not supported"))
     end.
Proof.
  intros Hext r. subst r. unfold importAll, parseFile.
  destruct (getObject env) as [err | md body]; simpl; auto.
  destruct (jsstring_eqb (fileExt this) (js "csv")) eqn:E; simpl; auto.
  apply jsstring_eqb_eq in E. contradiction.
Qed.

(** C5 at work: a spreadsheet upload is fetched, then refused. *)
Lemma other_format_rejected_after_fetch_witness :
  fileExt (constructor (Demo.upload "user.list.xls") None (js "importer"))
  <> js "csv"
  /\ trace (importAll (Demo.world (Demo.csvObject "a@b.com") [] Demo.ack)
              (constructor (Demo.upload "user.list.xls") None (js "importer")))
     = [EGetObject (js "imports") (js "user.list.xls")].
Proof.
  assert (H : fileExt (constructor (Demo.upload "user.list.xls") None
                         (js "importer")) <> js "csv")
    by (vm_compute; discriminate).
  split; [exact H|].
  exact (proj1 (other_format_rejected_after_fetch Demo.plainLibs
                  (Demo.world (Demo.csvObject "a@b.com") [] Demo.ack)
                  (constructor (Demo.upload "user.list.xls") None
                     (js "importer")) H)).
Defined.

(** C5 (as stated) fails: the rejection of a spreadsheet upload comes
    after the object has been requested from S3. *)
Lemma other_format_is_fetched_first :
  ~ (forall (libs : Libs) (env : Env) (this : Service),
        fileExt this <> js "csv" ->
        outcome (importAll env this)
        = Rejected (VString (fileExt this ++ js " is not supported"))
        /\ existsb fetchesOrDecodes (trace (importAll env this)) = false
        /\ existsb buildsStatus (trace (importAll env this)) = false).
Proof.
  intro claim.
  destruct (claim Demo.plainLibs
              (Demo.world (Demo.csvObject "a@b.com") [] Demo.ack)
              (constructor (Demo.upload "user.list.xls") None (js "importer")))
    as (_ & H & _).
  - vm_compute. discriminate.
  - vm_compute in H. discriminate.
Qed.

(** ** The partition of the decoded records *)

Lemma importAll_counts (libs : Libs) (env : Env) (this : Service)
    (parsed : list Recipient.t) :
  outcome (parseFile env this) = Fulfilled parsed ->
  let this' := after (importAll env this) in
  totalRecipientsCount this' = Z.of_nat (length parsed)
  /\ Z.of_nat (length (recipients this'))
     + Z.of_nat (length (corruptedEmails this'))
     = totalRecipientsCount this'
       + Z.of_nat (length (corruptedEmails this)).
Proof.
  intro Hp. unfold importAll. rewrite Hp.
  assert (C : corruptedEmails (after (parseFile env this))
              = corruptedEmails this).
  { unfold parseFile.
    destruct (getObject env); simpl; auto.
    destruct (jsstring_eqb _ _); simpl; auto.
    destruct (JSON_parse _); simpl; auto. }
  set (this1 := set_totalRecipientsCount _ _).
  pose proof (filterRecipients_counts parsed this1) as N.
  pose proof (filterRecipients_frame parsed this1) as F.
  destruct (filterRecipients this1 parsed) as [kept this2].
  simpl in N, F. destruct F as (_ & T & _).
  pose proof (saveRecipients_frame env (saveAll env)
                (set_recipients this2 kept)) as S.
  simpl in S |- *. destruct S as (R & Cs & Ts & _).
  rewrite R, Cs, Ts, T.
  unfold this1 in N |- *. simpl in N |- *. rewrite C in N. lia.
Qed.

(** C8: on a service fresh from its constructor, once the file has been
    fetched and decoded, [totalRecipientsCount] is the number of decoded
    records, and the recipients kept for saving plus the corrupted
    emails collected add up to it; saving changes neither. *)
Theorem valid_plus_corrupted_is_total
    (libs : Libs) (env : Env) (ev : S3Event) (offset : option Z)
    (functionName : jsstring) (parsed : list Recipient.t) :
  outcome (parseFile env (constructor ev offset functionName))
  = Fulfilled parsed ->
  let this' := after (importAll env (constructor ev offset functionName)) in
  totalRecipientsCount this' = Z.of_nat (length parsed)
  /\ Z.of_nat (length (recipients this'))
     + Z.of_nat (length (corruptedEmails this'))
     = totalRecipientsCount this'.
Proof.
  intro Hp.
  destruct (importAll_counts libs env _ parsed Hp) as [T N].
  simpl in N |- *. split; [exact T|]. lia.
Qed.

(** C8 at work: three rows, one of them without an address. *)
Lemma valid_plus_corrupted_is_total_witness :
  let this' :=
    after (importAll Demo.threeRows
             (constructor (Demo.upload "user.list.csv") None (js "importer"))) in
  totalRecipientsCount this' = 3
  /\ Z.of_nat (length (recipients this'))
     + Z.of_nat (length (corruptedEmails this'))
     = totalRecipientsCount this'.
Proof.
  exact (valid_plus_corrupted_is_total Demo.plainLibs Demo.threeRows
           (Demo.upload "user.list.csv") None (js "importer")
           (Demo.handed (parseCSV Demo.threeRows
              (set_headerMapping
                 (constructor (Demo.upload "user.list.csv") None
                    (js "importer"))
                 (Some []))
              (js "a@b.com" ++ [10%N] ++ js "not-an-email" ++ [10%N]
               ++ js "c@d.com")))
           eq_refl).
Defined.

(** ** The identity of a recipient *)

Lemma parseRows_ids (libs : Libs) (this : Service) (clock : nat -> Z)
    (i : nat) (rows : list (object jsstring)) :
  option_map (map Recipient.id) (parseRows this clock i rows)
  = option_map (map base64url_encode) (rowEmails rows).
Proof.
  revert i. induction rows as [|data rest IH]; intro i; [reflexivity|].
  cbn [parseRows rowEmails]. unfold newRecp.
  destruct (get data (js "email")) as [email|]; [|reflexivity].
  specialize (IH (S i)).
  destruct (parseRows this clock (S i) rest), (rowEmails rest);
    cbn [option_map map Recipient.id] in *; congruence.
Qed.

(** C9: the [id] of the recipient built for a row is the encoding of the
    row's [email] and of nothing else: the same row gives the same [id]
    whatever the moment, the header mapping and the other fields of the
    service (and no recipient at all, either time, when the row has no
    [email]), and decoding the same CSV text twice gives the same ids in
    the same order. *)
Theorem id_is_encoded_email
    (libs : Libs) (this this' : Service) (now now' : Z)
    (data : object jsstring) :
  option_map Recipient.id (newRecp this now data)
  = option_map base64url_encode (get data (js "email"))
  /\ option_map Recipient.id (newRecp this now data)
     = option_map Recipient.id (newRecp this' now' data)
  /\ (forall (env env' : Env) (csvString : jsstring),
         option_map (map Recipient.id) (parseCSV env this csvString)
         = option_map (map Recipient.id) (parseCSV env' this' csvString)
         /\ option_map (map Recipient.id) (parseCSV env this csvString)
            = option_map (map base64url_encode)
                (rowEmails (csv_fromString csvString))).
Proof.
  unfold newRecp.
  split; [now destruct (get data (js "email"))|].
  split; [now destruct (get data (js "email"))|].
  intros env env' csvString.
  unfold parseCSV. now rewrite !parseRows_ids.
Qed.

(** ** Further properties of a run *)

(** X1, order preservation: the recipients kept for saving are the decoded
    ones that the filter accepts, in decode order. *)
Theorem kept_recipients_in_decode_order
    (libs : Libs) (env : Env) (this : Service) (parsed : list Recipient.t) :
  outcome (parseFile env this) = Fulfilled parsed ->
  recipients (after (importAll env this)) = filter accepted parsed.
Proof.
  intro Hp. unfold importAll. rewrite Hp.
  set (this1 := set_totalRecipientsCount _ _).
  pose proof (filterRecipients_kept parsed this1) as K.
  destruct (filterRecipients this1 parsed) as [kept this2].
  simpl in K |- *.
  destruct (saveRecipients_frame env (saveAll env)
              (set_recipients this2 kept)) as (R & _).
  rewrite R. exact K.
Qed.

Lemma kept_recipients_in_decode_order_witness :
  map Recipient.email
    (recipients
       (after (importAll Demo.threeRows
                 (constructor (Demo.upload "user.list.csv") None
                    (js "importer")))))
  = [Some (js "a@b.com"); Some (js "c@d.com")].
Proof.
  assert (Hp : outcome
                 (parseFile Demo.threeRows
                    (constructor (Demo.upload "user.list.csv") None
                       (js "importer")))
               = Fulfilled
                   (Demo.handed (parseCSV Demo.threeRows
                      (set_headerMapping
                         (constructor (Demo.upload "user.list.csv") None
                            (js "importer"))
                         (Some []))
                      (js "a@b.com" ++ [10%N] ++ js "not-an-email" ++ [10%N]
                       ++ js "c@d.com"))))
    by reflexivity.
  rewrite (kept_recipients_in_decode_order Demo.plainLibs Demo.threeRows
             _ _ Hp).
  reflexivity.
Defined.

(** X2: one execution builds at most one status and sends at most one
    re-dispatch request. *)
Theorem at_most_one_status_per_execution
    (env : Env) (answers : list SaveResponse) (this : Service) :
  (length (filter buildsStatus (trace (saveRecipients env answers this)))
   <= 1)%nat
  /\ (length (filter isInvoke (trace (saveRecipients env answers this)))
      <= 1)%nat.
Proof.
  revert this. induction answers as [|a rest IH]; intro this;
    rewrite saveRecipients_eq;
    destruct (importOffset this <? Z.of_nat (length (recipients this)));
    simpl; try lia.
  destruct a as [err | u remaining]; simpl; [lia|].
  destruct (timeEnough remaining).
  - rewrite catchHandler_plain by apply saveRecipients_plain.
    simpl. apply IH.
  - unfold catchHandler, invokeLambda. simpl.
    destruct (invoke env); simpl; lia.
Qed.

Lemma batchOf_then_rest (this : Service) :
  0 <= importOffset this <= Z.of_nat (length (recipients this)) ->
  batchOf this
  ++ skipn (Z.to_nat (importOffset this + Z.of_nat (length (batchOf this))))
       (recipients this)
  = skipn (Z.to_nat (importOffset this)) (recipients this).
Proof.
  intro H.
  assert (E : Z.to_nat (importOffset this
                        + Z.of_nat (length (batchOf this)))
              = (length (batchOf this) + Z.to_nat (importOffset this))%nat)
    by lia.
  rewrite E, <- skipn_skipn.
  unfold batchOf at 1 2, slice.
  destruct (Z.ltb_spec (importOffset this) 0); [lia|].
  rewrite (Z.min_l (importOffset this)) by lia.
  set (n := Z.to_nat _).
  set (l := skipn _ _).
  rewrite (length_firstn n l).
  destruct (Nat.le_ge_cases n (length l)) as [Hle | Hge].
  - rewrite Nat.min_l by assumption. apply firstn_skipn.
  - rewrite Nat.min_r by assumption.
    rewrite firstn_all2 by assumption.
    rewrite skipn_all. apply app_nil_r.
Qed.

(** X3, an uninterrupted run: when every chunk is taken in full with time
    left and the answers suffice, the recipients from the offset on are
    submitted exactly once and in order, the offset ends at their
    number, the SUCCESS status is built with that count, and the promise
    is fulfilled with [undefined]. *)
Theorem uninterrupted_run_imports_all
    (env : Env) (answers : list SaveResponse) (this : Service) :
  Forall goesOn answers ->
  0 <= importOffset this <= Z.of_nat (length (recipients this)) ->
  Z.of_nat (length (recipients this)) - importOffset this
  <= 25 * Z.of_nat (length answers) ->
  let r := saveRecipients env answers this in
  outcome r = Fulfilled VUndefined
  /\ importOffset (after r) = Z.of_nat (length (recipients this))
  /\ exists chunks,
       trace r
       = map ESaveAll chunks
         ++ [EOrphan (Fulfilled (VStatus (successStatus env (after r))))]
       /\ concat chunks
          = skipn (Z.to_nat (importOffset this)) (recipients this).
Proof.
  intro Hgo. revert this.
  induction Hgo as [|a rest Ha Hrest IH]; intros this H0 Hn; cbv zeta.
  - simpl in Hn. rewrite saveRecipients_done by lia. simpl.
    split; [reflexivity|]. split; [lia|].
    exists []. split; [reflexivity|].
    rewrite skipn_all2 by lia. reflexivity.
  - destruct (Z.ltb_spec (importOffset this)
                (Z.of_nat (length (recipients this)))) as [Hlt | Hge].
    + destruct a as [err | u remaining]; [contradiction|].
      destruct Ha as [Hu Ht].
      rewrite saveRecipients_continue by assumption.
      rewrite (advanceOffset_full_batch this u Hu).
      pose proof (batchOf_length this H0) as L.
      pose proof (batchOf_then_rest this H0) as B.
      set (this1 := set_importOffset this _) in *.
      assert (R : recipients this1 = recipients this) by reflexivity.
      assert (O : importOffset this1
                  = importOffset this + Z.of_nat (length (batchOf this)))
        by reflexivity.
      specialize (IH this1). cbv zeta in IH. rewrite R, O in IH.
      simpl length in Hn.
      destruct IH as (Ho & Hf & chunks & Htr & Hc); [lia | lia |].
      unfold preceded. cbn [outcome after trace].
      split; [exact Ho|]. split; [exact Hf|].
      exists (batchOf this :: chunks). split.
      * rewrite Htr. reflexivity.
      * simpl. rewrite Hc. exact B.
    + rewrite saveRecipients_done by lia. simpl.
      split; [reflexivity|]. split; [lia|].
      exists []. split; [reflexivity|].
      rewrite skipn_all2 by lia. reflexivity.
Qed.

(** 30 recipients and a generous deadline: chunks of 25 and 5. *)
Lemma uninterrupted_run_imports_all_witness :
  importOffset
    (after (saveRecipients Demo.threeRows
              [SaveResolves JUndefined 100000; SaveResolves JUndefined 90000]
              (Demo.loaded 30 0)))
  = 30.
Proof.
  refine (proj1 (proj2 (uninterrupted_run_imports_all Demo.threeRows
            [SaveResolves JUndefined 100000; SaveResolves JUndefined 90000]
            (Demo.loaded 30 0) _ _ _))).
  - repeat constructor.
  - vm_compute. split; discriminate.
  - vm_compute. discriminate.
Defined.

(** ** Scenarios *)

(** 30 valid recipients, and the deadline runs out after the first chunk:
    the first execution re-dispatches with offset 25, and the execution
    started from that offset saves the remaining 5 and counts 30. *)
Example two_executions_import_thirty :
  let env1 := Demo.world (Demo.csvObject "a@b.com")
                [SaveResolves JUndefined 50000] Demo.ack in
  let first := saveRecipients env1 (saveAll env1) (Demo.loaded 30 0) in
  let env2 := Demo.world (Demo.csvObject "a@b.com")
                [SaveResolves JUndefined 100000] Demo.ack in
  let second := saveRecipients env2 (saveAll env2) (Demo.loaded 30 25) in
  map isInvoke (trace first) = [false; true]
  /\ filter isInvoke (trace first)
     = [EInvoke (redispatch (Demo.loaded 30 25))]
  /\ (exists batch st,
        trace second = [ESaveAll batch; EOrphan (Fulfilled (VStatus st))]
        /\ length batch = 5%nat
        /\ Status.importStatus st = SUCCESS
        /\ Status.importedCount st = 30).
Proof.
  split; [reflexivity|]. split; [reflexivity|].
  do 2 eexists. repeat split.
Qed.

(** Mixed input: three rows, the second without an address. *)
Example mixed_input_is_partitioned :
  let this' :=
    after (importAll Demo.threeRows
             (constructor (Demo.upload "user.list.csv") None (js "importer"))) in
  totalRecipientsCount this' = 3
  /\ map Recipient.email (recipients this')
     = [Some (js "a@b.com"); Some (js "c@d.com")]
  /\ corruptedEmails this' = [Some (js "not-an-email")]
  /\ importOffset this' = 2.
Proof. repeat split. Qed.

(** ** The parts of the file key *)

Lemma split_not_nil (sep : N) (s : jsstring) : split sep s <> [].
Proof.
  destruct s as [|c t]; simpl; [discriminate|].
  destruct (N.eqb c sep); [discriminate|].
  destruct (split sep t); discriminate.
Qed.

Lemma join_cons (sep : N) (p : jsstring) (rest : list jsstring) :
  rest <> [] -> join sep (p :: rest) = p ++ sep :: join sep rest.
Proof. destruct rest; [contradiction | reflexivity]. Qed.

Lemma join_split (sep : N) (s : jsstring) : join sep (split sep s) = s.
Proof.
  induction s as [|c t IH]; [reflexivity|].
  pose proof (split_not_nil sep t) as Hn.
  cbn [split]. destruct (N.eqb_spec c sep) as [-> | Hc].
  - rewrite join_cons by assumption. now rewrite IH.
  - destruct (split sep t) as [|h r]; [contradiction|].
    destruct r as [|h' r'].
    + simpl in IH |- *. now rewrite IH.
    + rewrite join_cons in IH |- * by discriminate.
      rewrite <- IH. reflexivity.
Qed.

Lemma split_parts_free (sep : N) (s : jsstring) :
  Forall (fun p => ~ In sep p) (split sep s).
Proof.
  induction s as [|c t IH]; cbn [split].
  - repeat constructor. intros [].
  - destruct (N.eqb_spec c sep) as [-> | Hc].
    + constructor; [intros [] | exact IH].
    + destruct (split sep t) as [|h r].
      * repeat constructor. intros [E | []]. congruence.
      * inversion IH as [|? ? Hh Hr]; subst.
        constructor; [|exact Hr].
        intros [E | Hin]; [congruence | contradiction].
Qed.

Lemma split_free (sep : N) (s : jsstring) :
  ~ In sep s -> split sep s = [s].
Proof.
  induction s as [|c t IH]; intro Hn; [reflexivity|].
  cbn [split]. destruct (N.eqb_spec c sep) as [-> | Hc].
  - exfalso. apply Hn. now left.
  - rewrite IH; [reflexivity|]. intro Hin. apply Hn. now right.
Qed.

Lemma split_with_sep (sep : N) (s : jsstring) :
  In sep s -> exists p q rest, split sep s = p :: q :: rest.
Proof.
  induction s as [|c t IH]; intro Hin; [destruct Hin|].
  cbn [split]. destruct (N.eqb_spec c sep) as [-> | Hc].
  - pose proof (split_not_nil sep t) as Hn.
    destruct (split sep t) as [|h r]; [contradiction|]. eauto.
  - destruct Hin as [E | Hin]; [congruence|].
    destruct (IH Hin) as (p & q & rest & ->). eauto.
Qed.

Lemma join_last (sep : N) (parts : list jsstring) :
  parts <> [] ->
  exists front,
    join sep parts = front ++ last parts []
    /\ (front = [] \/ exists f, front = f ++ [sep]).
Proof.
  induction parts as [|p rest IH]; intro Hn; [contradiction|].
  destruct rest as [|q rest'].
  - exists []. simpl. auto.
  - destruct IH as (front & E & Hf); [discriminate|].
    exists (p ++ sep :: front). split.
    + change (join sep (p :: q :: rest'))
        with (p ++ sep :: join sep (q :: rest')).
      change (last (p :: q :: rest') []) with (last (q :: rest') []).
      rewrite E, <- app_assoc. reflexivity.
    + right. destruct Hf as [-> | (f & ->)].
      * exists p. reflexivity.
      * exists (p ++ sep :: f). now rewrite <- app_assoc.
Qed.

(** X4: how the constructor reads the key.  [userId] is the text before
    the first dot and [fileExt] the text after the last one, both free
    of dots; [listId] is the text between the first dot and the next,
    and is [undefined] exactly when the key has no dot, in which case
    [userId] and [fileExt] are both the whole key. *)
Theorem constructor_reads_key_parts
    (libs : Libs) (ev : S3Event) (offset : option Z) (functionName : jsstring) :
  let this := constructor ev offset functionName in
  fileKey this = querystring_unescape (object_key ev)
  /\ ~ In dot (userId this)
  /\ ~ In dot (fileExt this)
  /\ (exists tail,
         fileKey this = userId this ++ tail
         /\ (tail = [] \/ exists t, tail = dot :: t))
  /\ (exists front,
         fileKey this = front ++ fileExt this
         /\ (front = [] \/ exists f, front = f ++ [dot]))
  /\ (listId this = None <-> ~ In dot (fileKey this))
  /\ (forall l,
         listId this = Some l ->
         ~ In dot l
         /\ exists tail,
              fileKey this = userId this ++ [dot] ++ l ++ tail
              /\ (tail = [] \/ exists t, tail = dot :: t))
  /\ (~ In dot (fileKey this) ->
      userId this = fileKey this /\ fileExt this = fileKey this).
Proof.
  cbv zeta. unfold constructor. cbn [fileKey userId fileExt listId].
  set (key := querystring_unescape (object_key ev)).
  pose proof (split_not_nil dot key) as Hn.
  pose proof (join_split dot key) as Hj.
  pose proof (split_parts_free dot key) as Hf.
  pose proof (join_last dot (split dot key) Hn) as Hl.
  pose proof (split_free dot key) as H1.
  pose proof (split_with_sep dot key) as H2.
  destruct (split dot key) as [|u rest] eqn:E; [contradiction|].
  split; [reflexivity|].
  assert (Hu : ~ In dot u) by (inversion Hf; assumption).
  assert (Hlast : ~ In dot (last (u :: rest) [])).
  { destruct (exists_last Hn) as (pre & z & Ez).
    rewrite Ez, last_last. rewrite Ez in Hf.
    apply Forall_app in Hf as [_ Hz]. now inversion Hz. }
  split; [exact Hu|]. split; [exact Hlast|].
  split.
  { destruct rest as [|q rest'].
    - exists []. rewrite app_nil_r. split; [now rewrite <- Hj | now left].
    - exists (dot :: join dot (q :: rest')). split; [now rewrite <- Hj|].
      right. eauto. }
  split.
  { destruct Hl as (front & El & Hfront). exists front.
    rewrite <- Hj. auto. }
  split.
  { split.
    - intros Hnone Hin. destruct (H2 Hin) as (p & q & r & Ep).
      injection Ep as -> ->. discriminate.
    - intro Hno. specialize (H1 Hno). injection H1 as _ ->. reflexivity. }
  split.
  { intros l Hl'. destruct rest as [|q rest']; [discriminate|].
    simpl in Hl'. injection Hl' as ->.
    split.
    - inversion Hf as [|? ? _ Hr]; subst. now inversion Hr.
    - destruct rest' as [|q' rest''].
      + exists []. rewrite app_nil_r. split; [now rewrite <- Hj | now left].
      + exists (dot :: join dot (q' :: rest'')).
        split; [|right; eauto].
        rewrite <- Hj.
        change (join dot (u :: l :: q' :: rest''))
          with (u ++ dot :: l ++ dot :: join dot (q' :: rest'')).
        reflexivity. }
  intro Hno. specialize (H1 Hno). injection H1 as -> ->.
  split; reflexivity.
Qed.

(** ** The metadata of a recipient *)

Lemma jsstring_eqb_refl (a : jsstring) : jsstring_eqb a a = true.
Proof. now apply jsstring_eqb_eq. Qed.










(** ** [importAll], step by step *)

Lemma parseFile_fulfilled (libs : Libs) (env : Env) (this : Service)
    (parsed : list Recipient.t) :
  outcome (parseFile env this) = Fulfilled parsed ->
  exists md body mapping,
    getObject env = GetObjectData md body
    /\ fileExt this = js "csv"
    /\ JSON_parse md = Some mapping
    /\ parseCSV env (set_headerMapping this (Some mapping)) body
       = Some parsed
    /\ after (parseFile env this) = set_headerMapping this (Some mapping)
    /\ trace (parseFile env this)
       = [EGetObject (bucket this) (fileKey this); EJsonParse md;
          ECsvFromString body].
Proof.
  unfold parseFile.
  destruct (getObject env) as [err | md body]; simpl; [discriminate|].
  destruct (jsstring_eqb (fileExt this) (js "csv")) eqn:E; simpl;
    [|discriminate].
  apply jsstring_eqb_eq in E.
  destruct (JSON_parse md) as [mapping|] eqn:J; simpl; [|discriminate].
  destruct (parseCSV env (set_headerMapping this (Some mapping)) body)
    as [l|] eqn:P; [|discriminate].
  intro H. injection H as <-. exists md, body, mapping.
  repeat split; auto.
Qed.

Lemma importAll_fulfilled (libs : Libs) (env : Env) (this : Service)
    (parsed : list Recipient.t) :
  outcome (parseFile env this) = Fulfilled parsed ->
  let saved :=
    saveRecipients env (saveAll env)
      (prepared (after (parseFile env this)) parsed) in
  after (importAll env this) = after saved
  /\ trace (importAll env this) = trace (parseFile env this) ++ trace saved
  /\ outcome (importAll env this)
     = match outcome saved with
       | Fulfilled v => Fulfilled v
       | Rejected err => Rejected (VError err)
       | Pending => Pending
       end.
Proof.
  intro Hp. unfold importAll, prepared. rewrite Hp.
  destruct (filterRecipients _ parsed) as [kept this2]. simpl. auto.
Qed.

Lemma filterRecipients_corrupted (l : list Recipient.t) (this : Service) :
  corruptedEmails (snd (filterRecipients this l))
  = corruptedEmails this
    ++ map Recipient.email (filter (fun r => negb (accepted r)) l).
Proof.
  revert this. induction l as [|r l IH]; intro this; simpl.
  - now rewrite app_nil_r.
  - unfold filterByEmail, accepted.
    destruct (Regex.test emailPattern (ToString (Recipient.email r))); simpl.
    + specialize (IH this). destruct (filterRecipients this l). exact IH.
    + specialize (IH (set_corruptedEmails this
                        (corruptedEmails this ++ [Recipient.email r]))).
      destruct (filterRecipients _ l). simpl in *.
      rewrite IH, <- app_assoc. reflexivity.
Qed.

Lemma prepared_fields (parsedThis : Service) (parsed : list Recipient.t) :
  recipients (prepared parsedThis parsed) = filter accepted parsed
  /\ corruptedEmails (prepared parsedThis parsed)
     = corruptedEmails parsedThis
       ++ map Recipient.email (filter (fun r => negb (accepted r)) parsed)
  /\ totalRecipientsCount (prepared parsedThis parsed)
     = Z.of_nat (length parsed)
  /\ importOffset (prepared parsedThis parsed) = importOffset parsedThis
  /\ s3Event (prepared parsedThis parsed) = s3Event parsedThis
  /\ lambdaName (prepared parsedThis parsed) = lambdaName parsedThis.
Proof.
  unfold prepared.
  set (this1 := set_totalRecipientsCount parsedThis _).
  pose proof (filterRecipients_kept parsed this1) as K.
  pose proof (filterRecipients_corrupted parsed this1) as C.
  pose proof (filterRecipients_frame parsed this1) as F.
  simpl in F. destruct F as (O & T & S & L).
  cbn [recipients corruptedEmails totalRecipientsCount importOffset
       s3Event lambdaName set_recipients].
  rewrite C, O, T, S, L. repeat split. exact K.
Qed.

(** X6: after [importAll] has fetched and decoded the file,
    [corruptedEmails] is what it was before, followed by the emails of
    the decoded recipients that the filter rejects, in decode order: the
    list is appended to, never reset. *)
Theorem corrupted_emails_in_decode_order
    (libs : Libs) (env : Env) (this : Service) (parsed : list Recipient.t) :
  outcome (parseFile env this) = Fulfilled parsed ->
  corruptedEmails (after (importAll env this))
  = corruptedEmails this
    ++ map Recipient.email (filter (fun r => negb (accepted r)) parsed).
Proof.
  intro Hp.
  destruct (importAll_fulfilled libs env this parsed Hp) as (A & _).
  destruct (parseFile_fulfilled libs env this parsed Hp)
    as (md & body & mapping & _ & _ & _ & _ & P & _).
  rewrite A.
  destruct (saveRecipients_frame env (saveAll env)
              (prepared (after (parseFile env this)) parsed))
    as (_ & C & _).
  rewrite C.
  destruct (prepared_fields (after (parseFile env this)) parsed)
    as (_ & C' & _).
  rewrite C', P. reflexivity.
Qed.

Lemma corrupted_emails_in_decode_order_witness :
  corruptedEmails
    (after (importAll Demo.threeRows
              (constructor (Demo.upload "user.list.csv") None
                 (js "importer"))))
  = [Some (js "not-an-email")].
Proof.
  assert (Hp : outcome
                 (parseFile Demo.threeRows
                    (constructor (Demo.upload "user.list.csv") None
                       (js "importer")))
               = Fulfilled
                   (Demo.handed (parseCSV Demo.threeRows
                      (set_headerMapping
                         (constructor (Demo.upload "user.list.csv") None
                            (js "importer"))
                         (Some []))
                      (js "a@b.com" ++ [10%N] ++ js "not-an-email" ++ [10%N]
                       ++ js "c@d.com"))))
    by reflexivity.
  rewrite (corrupted_emails_in_decode_order Demo.plainLibs Demo.threeRows
             _ _ Hp).
  reflexivity.
Defined.

Lemma parseRows_emails (libs : Libs) (this : Service) (clock : nat -> Z)
    (i : nat) (rows : list (object jsstring)) :
  option_map (map Recipient.email) (parseRows this clock i rows)
  = option_map (map Some) (rowEmails rows).
Proof.
  revert i. induction rows as [|data rest IH]; intro i; [reflexivity|].
  cbn [parseRows rowEmails]. unfold newRecp.
  destruct (get data (js "email")) as [email|]; [|reflexivity].
  specialize (IH (S i)).
  destruct (parseRows this clock (S i) rest), (rowEmails rest);
    cbn [option_map map Recipient.email] in *; congruence.
Qed.

Lemma rowEmails_none (rows : list (object jsstring)) :
  rowEmails rows = None
  <-> Exists (fun data => get data (js "email") = None) rows.
Proof.
  induction rows as [|data rest IH]; cbn [rowEmails].
  - split; [discriminate | intro H; inversion H].
  - destruct (get data (js "email")) as [email|] eqn:E.
    + destruct (rowEmails rest) as [emails|].
      * split; [discriminate|]. intro H. inversion H; subst.
        -- congruence.
        -- apply IH in H1. discriminate.
      * split; [|reflexivity]. intros _. apply Exists_cons_tl. now apply IH.
    + split; [|reflexivity]. intros _. now apply Exists_cons_hd.
Qed.

Lemma parseRows_none (libs : Libs) (this : Service) (clock : nat -> Z)
    (i : nat) (rows : list (object jsstring)) :
  parseRows this clock i rows = None <-> rowEmails rows = None.
Proof.
  pose proof (parseRows_emails libs this clock i rows) as E.
  destruct (parseRows this clock i rows), (rowEmails rows);
    cbn [option_map] in E; split; congruence.
Qed.

Lemma filter_accepted_emails (l : list Recipient.t) :
  map Recipient.email (filter accepted l)
  = filter (fun e => Regex.test emailPattern (ToString e))
      (map Recipient.email l).
Proof.
  induction l as [|r l IH]; simpl; [reflexivity|].
  unfold accepted at 1.
  destruct (Regex.test emailPattern (ToString (Recipient.email r))); simpl;
    now rewrite IH.
Qed.

Lemma filter_rejected_emails (l : list Recipient.t) :
  map Recipient.email (filter (fun r => negb (accepted r)) l)
  = filter (fun e => negb (Regex.test emailPattern (ToString e)))
      (map Recipient.email l).
Proof.
  induction l as [|r l IH]; simpl; [reflexivity|].
  unfold accepted at 1.
  destruct (Regex.test emailPattern (ToString (Recipient.email r))); simpl;
    now rewrite IH.
Qed.

(** X7: a csv file in which some row has no [email] column.  The
    object is fetched, its metadata parsed and the decoding started, but
    the row handler throws on that row, the recipients are never handed
    over, and the promise of [importAll] is never settled: it neither
    resolves nor rejects, [Recipient.saveAll] is not called, no
    re-dispatch is sent and no status is built. *)
Theorem rows_without_email_leave_import_pending
    (libs : Libs) (env : Env) (this : Service) (md : jsval) (body : jsstring)
    (mapping : object jsstring) :
  getObject env = GetObjectData md body ->
  fileExt this = js "csv" ->
  JSON_parse md = Some mapping ->
  Exists (fun data => get data (js "email") = None) (csv_fromString body) ->
  let r := importAll env this in
  outcome r = Pending
  /\ trace r
     = [EGetObject (bucket this) (fileKey this); EJsonParse md;
        ECsvFromString body]
  /\ after r = set_headerMapping this (Some mapping).
Proof.
  intros Hg Hext Hj Hrows r. subst r.
  assert (P : parseCSV env (set_headerMapping this (Some mapping)) body
              = None).
  { unfold parseCSV. apply parseRows_none. now apply rowEmails_none. }
  unfold importAll, parseFile. rewrite Hg, Hext, Hj.
  rewrite jsstring_eqb_refl. cbn [outcome after trace]. rewrite P.
  repeat split.
Qed.

Lemma rows_without_email_leave_import_pending_witness :
  outcome
    (@importAll Sample.nameLibs Sample.names
       (@constructor Sample.nameLibs (Demo.upload "user.list.csv")
          None (js "importer")))
  = Pending.
Proof.
  refine (proj1
            (rows_without_email_leave_import_pending Sample.nameLibs
               Sample.names
               (@constructor Sample.nameLibs (Demo.upload "user.list.csv")
                  None (js "importer"))
               (JString (js "{}")) (js "Ada" ++ [10%N] ++ js "Grace")
               [(js "name", js "fullName")]
               eq_refl eq_refl eq_refl _)).
  apply Exists_cons_hd. reflexivity.
Defined.

(** ** The shape of an execution *)

(** Every execution of [saveRecipients] is a series of [saveAll] calls
    followed by one of the five endings. *)
Lemma saveRecipients_shape (env : Env) (answers : list SaveResponse)
    (this : Service) :
  exists chunks e,
    trace (saveRecipients env answers this)
    = map ESaveAll chunks
      ++ endingEvents env (after (saveRecipients env answers this)) e
    /\ outcome (saveRecipients env answers this) = endingOutcome e
    /\ endingAllowed env (after (saveRecipients env answers this)) e
    /\ (e <> Done -> chunks <> []).
Proof.
  revert this. induction answers as [|a rest IH]; intro this.
  - rewrite saveRecipients_eq.
    destruct (Z.ltb_spec (importOffset this)
                (Z.of_nat (length (recipients this)))) as [Hlt | Hge].
    + exists [batchOf this], Unanswered. simpl. repeat split. discriminate.
    + exists [], Done. simpl. repeat split; [assumption | congruence].
  - destruct (Z.ltb_spec (importOffset this)
                (Z.of_nat (length (recipients this)))) as [Hlt | Hge].
    + destruct a as [err | u remaining].
      * rewrite saveRecipients_rejected by assumption.
        exists [batchOf this], (SaveFailed err). simpl.
        repeat split. discriminate.
      * destruct (timeEnough remaining) eqn:Ht.
        -- rewrite saveRecipients_continue by assumption.
           destruct (IH (advanceOffset this u (batchOf this)))
             as (chunks & e & Htr & Ho & Ha & _).
           exists (batchOf this :: chunks), e.
           unfold preceded. cbn [outcome after trace].
           rewrite Htr. repeat split; auto. discriminate.
        -- rewrite saveRecipients_eq.
           apply Z.ltb_lt in Hlt. rewrite Hlt, Ht.
           unfold catchHandler, invokeLambda, preceded.
           cbn [outcome after trace].
           destruct (invoke env) as [err | data] eqn:Hi.
           ++ exists [batchOf this], (DispatchFailed err).
              simpl. repeat split; [assumption | discriminate].
           ++ exists [batchOf this], (Dispatched data).
              simpl. repeat split; [assumption | discriminate].
    + rewrite saveRecipients_done by assumption.
      exists [], Done. simpl. repeat split; [assumption | congruence].
Qed.



(** X9: the order of the external calls of [importAll]: one [getObject];
    then, at most, [JSON.parse] and [csv.fromString]; then the [saveAll]
    calls; then one of the endings of [saveRecipients].  A [saveAll]
    call or an ending occurs only after both decoding steps. *)
Theorem importAll_call_order (libs : Libs) (env : Env) (this : Service) :
  exists decoded chunks tail,
    trace (importAll env this)
    = EGetObject (bucket this) (fileKey this) :: decoded
      ++ map ESaveAll chunks ++ tail
    /\ (decoded = []
        \/ (exists md, decoded = [EJsonParse md])
        \/ (exists md body, decoded = [EJsonParse md; ECsvFromString body]))
    /\ (tail = []
        \/ exists e, tail = endingEvents env (after (importAll env this)) e)
    /\ (chunks <> [] \/ tail <> [] ->
        exists md body, decoded = [EJsonParse md; ECsvFromString body]).
Proof.
  destruct (outcome (parseFile env this)) as [parsed | reason |] eqn:Hp.
  - destruct (importAll_fulfilled libs env this parsed Hp) as (A & T & _).
    destruct (parseFile_fulfilled libs env this parsed Hp)
      as (md & body & mapping & _ & _ & _ & _ & _ & Tp).
    destruct (saveRecipients_shape env (saveAll env)
                (prepared (after (parseFile env this)) parsed))
      as (chunks & e & Htr & _).
    exists [EJsonParse md; ECsvFromString body], chunks,
      (endingEvents env (after (importAll env this)) e).
    rewrite T, Tp, Htr, A. repeat split; eauto.
  - exists [], [], []. unfold importAll. rewrite Hp.
    revert Hp. unfold parseFile.
    destruct (getObject env) as [err | md body]; cbn [outcome after trace].
    + intros _. repeat split; auto. intros [H | H]; congruence.
    + destruct (jsstring_eqb _ _); cbn [outcome trace].
      * destruct (JSON_parse md); cbn [outcome]; [|discriminate].
        destruct (parseCSV _ _ _); discriminate.
      * intros _. repeat split; auto. intros [H | H]; congruence.
  - unfold importAll. rewrite Hp. revert Hp. unfold parseFile.
    destruct (getObject env) as [err | md body]; cbn [outcome after trace];
      [discriminate|].
    destruct (jsstring_eqb _ _); cbn [outcome trace]; [|discriminate].
    destruct (JSON_parse md); cbn [outcome trace].
    + intros _. exists [EJsonParse md; ECsvFromString body], [], [].
      repeat split; eauto.
    + intros _. exists [EJsonParse md], [], [].
      repeat split; eauto. intros [H | H]; congruence.
Qed.

(** X10: a re-dispatch request is the last call of an execution and
    describes its final state: it names the lambda of the service,
    carries the S3 event record the service was created with and the
    final [importOffset], and is followed by nothing but, possibly, the
    FAILED status of a refused request. *)
Theorem redispatch_request_describes_final_state
    (env : Env) (answers : list SaveResponse) (this : Service)
    (params : InvokeParams) :
  In (EInvoke params) (trace (saveRecipients env answers this)) ->
  let r := saveRecipients env answers this in
  FunctionName params = lambdaName this
  /\ InvocationType params = js "Event"
  /\ Records_s3 (InvokePayload params) = s3Event this
  /\ payload_importOffset (InvokePayload params) = importOffset (after r)
  /\ exists chunks tail,
       trace r = map ESaveAll chunks ++ EInvoke params :: tail
       /\ chunks <> []
       /\ (tail = []
           \/ exists err,
                invoke env = InvokeErr err
                /\ tail = [EOrphan (Rejected (VStatus
                             (failedStatus env (after r) err)))]).
Proof.
  intros Hin r. subst r.
  destruct (saveRecipients_shape env answers this)
    as (chunks & e & Htr & _ & Ha & Hne).
  destruct (saveRecipients_frame env answers this) as (_ & _ & _ & S & L).
  rewrite Htr in Hin. apply in_app_or in Hin as [Hin | Hin].
  { apply in_map_iff in Hin as (c & Hc & _). discriminate. }
  destruct e as [| | err | data | err]; simpl in Hin.
  - destruct Hin.
  - destruct Hin as [H | []]. discriminate.
  - destruct Hin as [H | []]. discriminate.
  - destruct Hin as [H | []]. injection H as <-.
    cbn [redispatch FunctionName InvocationType InvokePayload Records_s3
         payload_importOffset].
    repeat split; auto.
    exists chunks, []. repeat split; auto. apply Hne. discriminate.
  - destruct Hin as [H | [H | []]]; [|discriminate]. injection H as <-.
    cbn [redispatch FunctionName InvocationType InvokePayload Records_s3
         payload_importOffset].
    repeat split; auto.
    exists chunks, [EOrphan (Rejected (VStatus
                      (failedStatus env
                         (after (saveRecipients env answers this)) err)))].
    repeat split; auto; [apply Hne; discriminate|].
    right. exists err. auto.
Qed.

Lemma redispatch_request_describes_final_state_witness :
  payload_importOffset (InvokePayload (redispatch (Demo.loaded 30 25))) = 25.
Proof.
  exact (proj1 (proj2 (proj2 (proj2
           (redispatch_request_describes_final_state Sample.firstWindow
              [SaveResolves JUndefined 50000] (Demo.loaded 30 0)
              (redispatch (Demo.loaded 30 25))
              (or_intror (or_introl eq_refl))))))).
Defined.

(** [saveRecipients] changes nothing of [this] but [importOffset]. *)
Lemma set_importOffset_same (this : Service) :
  set_importOffset this (importOffset this) = this.
Proof. destruct this; reflexivity. Qed.

Lemma advanceOffset_only_offset (this : Service) (u : jsval)
    (batch : list Recipient.t) :
  advanceOffset this u batch
  = set_importOffset this (importOffset (advanceOffset this u batch)).
Proof.
  unfold advanceOffset.
  destruct (truthy u && instanceofArray u); reflexivity.
Qed.

Lemma saveRecipients_only_offset (env : Env) (answers : list SaveResponse)
    (this : Service) :
  after (saveRecipients env answers this)
  = set_importOffset this
      (importOffset (after (saveRecipients env answers this))).
Proof.
  revert this. induction answers as [|a rest IH]; intro this;
    rewrite saveRecipients_eq;
    destruct (importOffset this <? Z.of_nat (length (recipients this)));
    cbn [after catchHandler outcome];
    try (symmetry; apply set_importOffset_same).
  destruct a as [err | u remaining];
    [symmetry; apply set_importOffset_same|].
  destruct (timeEnough remaining).
  - rewrite catchHandler_plain by apply saveRecipients_plain.
    unfold preceded. cbn [after].
    rewrite IH at 1. rewrite advanceOffset_only_offset at 1. reflexivity.
  - unfold catchHandler, invokeLambda, preceded. cbn [outcome after].
    destruct (invoke env); cbn [after]; apply advanceOffset_only_offset.
Qed.

(** X11: a status that is built describes the final state of the
    execution.  Its [importedCount] is the final offset, its counts and
    its list of corrupted emails are those of the service, and
    [corruptedEmailsCount] is the length of that list.  A status in a
    resolved promise is a SUCCESS without message, built only once the
    offset has reached the number of recipients; a status in a rejected
    promise is a FAILED one with the message and the stack of an
    error. *)
Theorem built_status_describes_final_state
    (env : Env) (answers : list SaveResponse) (this : Service) :
  let r := saveRecipients env answers this in
  (forall st,
      In (EOrphan (Fulfilled (VStatus st))) (trace r)
      \/ In (EOrphan (Rejected (VStatus st))) (trace r) ->
      Status.importedCount st = importOffset (after r)
      /\ Status.totalRecipientsCount st = totalRecipientsCount this
      /\ Status.corruptedEmails st = corruptedEmails this
      /\ Status.corruptedEmailsCount st
         = Z.of_nat (length (corruptedEmails this))
      /\ Status.userId st = userId this
      /\ Status.listId st = listId this
      /\ Status.updatedAt st = dateString env)
  /\ (forall st,
         In (EOrphan (Fulfilled (VStatus st))) (trace r) ->
         Status.importStatus st = SUCCESS
         /\ Status.message st = None
         /\ Status.stackTrace st = None
         /\ Z.of_nat (length (recipients this)) <= Status.importedCount st)
  /\ (forall st,
         In (EOrphan (Rejected (VStatus st))) (trace r) ->
         Status.importStatus st = FAILED
         /\ exists err,
              Status.message st = Some (message err)
              /\ Status.stackTrace st = Some (stack err)).
Proof.
  cbv zeta.
  destruct (saveRecipients_shape env answers this)
    as (chunks & e & Htr & _ & Ha & _).
  destruct (saveRecipients_frame env answers this) as (R & C & T & _).
  assert (U : userId (after (saveRecipients env answers this)) = userId this)
    by (rewrite saveRecipients_only_offset; reflexivity).
  assert (L : listId (after (saveRecipients env answers this)) = listId this)
    by (rewrite saveRecipients_only_offset; reflexivity).
  rewrite Htr.
  assert (Hchunks : forall x, In x (map ESaveAll chunks) ->
                              isSaveAll x = true).
  { intros x Hx. apply in_map_iff in Hx as (c & <- & _). reflexivity. }
  assert (Hsplit : forall x,
             isSaveAll x = false ->
             In x (map ESaveAll chunks
                   ++ endingEvents env
                        (after (saveRecipients env answers this)) e) ->
             In x (endingEvents env
                     (after (saveRecipients env answers this)) e)).
  { intros x Hx Hin. apply in_app_or in Hin as [Hin | Hin]; [|assumption].
    apply Hchunks in Hin. congruence. }
  split; [|split].
  - intros st [Hin | Hin]; apply Hsplit in Hin; try reflexivity;
      destruct e; simpl in Hin;
      repeat (destruct Hin as [Hin | Hin]; try discriminate Hin);
      try contradiction; injection Hin as <-;
      cbn; rewrite ?C, ?T, ?U, ?L; repeat split.
  - intros st Hin. apply Hsplit in Hin; [|reflexivity].
    destruct e; simpl in Hin;
      repeat (destruct Hin as [Hin | Hin]; try discriminate Hin);
      try contradiction.
    injection Hin as <-. cbn. simpl in Ha. rewrite R in Ha.
    repeat split. exact Ha.
  - intros st Hin. apply Hsplit in Hin; [|reflexivity].
    destruct e; simpl in Hin;
      repeat (destruct Hin as [Hin | Hin]; try discriminate Hin);
      try contradiction; injection Hin as <-; cbn; split; eauto.
Qed.

(** ** Submitted and counted recipients *)

Lemma batchOf_not_nil (this : Service) :
  0 <= importOffset this < Z.of_nat (length (recipients this)) ->
  batchOf this <> [].
Proof.
  intros H E.
  assert (L : Z.of_nat (length (batchOf this))
              = Z.min 25 (Z.of_nat (length (recipients this))
                          - importOffset this))
    by (apply batchOf_length; lia).
  rewrite E in L. simpl in L. lia.
Qed.

(** X12: on the path without an Array, from an offset within the list,
    the batches submitted are non-empty consecutive pieces of the
    recipients that remain, starting at the offset: no recipient is
    skipped or submitted twice.  The offset never counts more than was
    submitted, and counts exactly what was submitted unless the last
    call was rejected or never answered. *)
Theorem plain_path_submits_consecutive_batches
    (env : Env) (answers : list SaveResponse) (this : Service) :
  Forall plainAnswer answers ->
  0 <= importOffset this <= Z.of_nat (length (recipients this)) ->
  let r := saveRecipients env answers this in
  exists chunks e rest,
    trace r = map ESaveAll chunks ++ endingEvents env (after r) e
    /\ Forall (fun chunk => chunk <> []) chunks
    /\ skipn (Z.to_nat (importOffset this)) (recipients this)
       = concat chunks ++ rest
    /\ importOffset this <= importOffset (after r)
       <= importOffset this + Z.of_nat (length (concat chunks))
    /\ match e with
       | Unanswered | SaveFailed _ => True
       | Done | Dispatched _ | DispatchFailed _ =>
           importOffset (after r)
           = importOffset this + Z.of_nat (length (concat chunks))
       end.
Proof.
  intro Hp. revert this.
  assert (Hdone : forall answers this,
             0 <= importOffset this <= Z.of_nat (length (recipients this)) ->
             Z.of_nat (length (recipients this)) <= importOffset this ->
             let r := saveRecipients env answers this in
             exists chunks e rest,
               trace r = map ESaveAll chunks ++ endingEvents env (after r) e
               /\ Forall (fun chunk => chunk <> []) chunks
               /\ skipn (Z.to_nat (importOffset this)) (recipients this)
                  = concat chunks ++ rest
               /\ importOffset this <= importOffset (after r)
                  <= importOffset this + Z.of_nat (length (concat chunks))
               /\ match e with
                  | Unanswered | SaveFailed _ => True
                  | Done | Dispatched _ | DispatchFailed _ =>
                      importOffset (after r)
                      = importOffset this
                        + Z.of_nat (length (concat chunks))
                  end).
  { intros l this H0 Hge. cbv zeta.
    rewrite saveRecipients_done by assumption.
    exists [], Done, []. cbn [after trace map concat length app endingEvents].
    repeat split; try lia; [constructor|].
    apply skipn_all2. lia. }
  assert (Hone : forall this (e : Ending) final,
             0 <= importOffset this < Z.of_nat (length (recipients this)) ->
             importOffset this <= importOffset final
             <= importOffset this + Z.of_nat (length (batchOf this)) ->
             match e with
             | Unanswered | SaveFailed _ => True
             | Done | Dispatched _ | DispatchFailed _ =>
                 importOffset final
                 = importOffset this + Z.of_nat (length (batchOf this))
             end ->
             exists chunks e' rest,
               ESaveAll (batchOf this) :: endingEvents env final e
               = map ESaveAll chunks ++ endingEvents env final e'
               /\ Forall (fun chunk => chunk <> []) chunks
               /\ skipn (Z.to_nat (importOffset this)) (recipients this)
                  = concat chunks ++ rest
               /\ importOffset this <= importOffset final
                  <= importOffset this + Z.of_nat (length (concat chunks))
               /\ match e' with
                  | Unanswered | SaveFailed _ => True
                  | Done | Dispatched _ | DispatchFailed _ =>
                      importOffset final
                      = importOffset this
                        + Z.of_nat (length (concat chunks))
                  end).
  { intros this e final H0 Hb He.
    exists [batchOf this], e,
      (skipn (Z.to_nat (importOffset this
                        + Z.of_nat (length (batchOf this))))
         (recipients this)).
    cbn [map concat app]. rewrite app_nil_r.
    split; [reflexivity|].
    split; [repeat constructor; now apply batchOf_not_nil|].
    split; [symmetry; apply batchOf_then_rest; lia|].
    split; [exact Hb | exact He]. }
  induction Hp as [|a rest Ha Hrest IH]; intros this H0; cbv zeta.
  - destruct (Z.ltb_spec (importOffset this)
                (Z.of_nat (length (recipients this)))) as [Hlt | Hge];
      [|now apply Hdone].
    rewrite saveRecipients_eq. apply Z.ltb_lt in Hlt as Hb. rewrite Hb.
    cbn [after trace catchHandler outcome].
    apply (Hone this Unanswered this); [lia | lia | exact I].
  - destruct (Z.ltb_spec (importOffset this)
                (Z.of_nat (length (recipients this)))) as [Hlt | Hge];
      [|now apply Hdone].
    destruct a as [err | u remaining].
    + rewrite saveRecipients_rejected by assumption.
      cbn [after trace].
      apply (Hone this (SaveFailed err) this); [lia | lia | exact I].
    + cbn [plainAnswer] in Ha.
      pose proof (advanceOffset_full_batch this u Ha) as E.
      pose proof (batchOf_length this H0) as L.
      set (this1 := set_importOffset this _) in E.
      assert (O : importOffset this1
                  = importOffset this + Z.of_nat (length (batchOf this)))
        by reflexivity.
      assert (R : recipients this1 = recipients this) by reflexivity.
      destruct (timeEnough remaining) eqn:Ht.
      * rewrite saveRecipients_continue by assumption. rewrite E.
        unfold preceded. cbn [after trace].
        destruct (IH this1) as (chunks & e & rest' & Htr & Hne & Hs & Hb & He).
        { rewrite R, O. lia. }
        cbv zeta in Htr, Hs, Hb, He. rewrite R, O in Hs. rewrite O in Hb, He.
        exists (batchOf this :: chunks), e, rest'.
        cbn [map concat]. rewrite Htr, length_app, <- app_assoc, <- Hs.
        split; [reflexivity|].
        split; [constructor; [apply batchOf_not_nil; lia | exact Hne]|].
        split; [symmetry; apply batchOf_then_rest; lia|].
        split; [lia|]. destruct e; auto; lia.
      * rewrite saveRecipients_eq. apply Z.ltb_lt in Hlt as Hb.
        rewrite Hb, Ht, E.
        unfold catchHandler, invokeLambda, preceded.
        cbn [outcome after trace].
        destruct (invoke env) as [err | data]; cbn [after trace].
        -- apply (Hone this (DispatchFailed err) this1); [lia | lia | exact O].
        -- apply (Hone this (Dispatched data) this1); [lia | lia | exact O].
Qed.

Lemma plain_path_submits_consecutive_batches_witness :
  exists chunks e rest,
    trace (saveRecipients Sample.firstRun [SaveResolves JUndefined 50000]
             (Demo.loaded 30 0))
    = map ESaveAll chunks
      ++ endingEvents Sample.firstRun
           (after (saveRecipients Sample.firstRun
                     [SaveResolves JUndefined 50000] (Demo.loaded 30 0))) e
    /\ Forall (fun chunk => chunk <> []) chunks
    /\ skipn 0 (recipients (Demo.loaded 30 0)) = concat chunks ++ rest.
Proof.
  destruct (plain_path_submits_consecutive_batches Sample.firstRun
              [SaveResolves JUndefined 50000] (Demo.loaded 30 0))
    as (chunks & e & rest & H1 & H2 & H3 & _).
  - repeat constructor.
  - vm_compute. split; discriminate.
  - exists chunks, e, rest. auto.
Defined.

(** ** The numbers of the report *)

Lemma parse_trace_has_no_status (libs : Libs) (env : Env) (this : Service)
    (e : Event) :
  In e (trace (parseFile env this)) ->
  buildsStatus e = false /\ isInvoke e = false /\ isSaveAll e = false.
Proof.
  unfold parseFile.
  destruct (getObject env) as [err | md body]; cbn [trace].
  - intros [<- | []]. auto.
  - destruct (jsstring_eqb _ _); cbn [trace].
    + destruct (JSON_parse md); cbn [trace app];
        intros H; repeat (destruct H as [<- | H]; auto); destruct H.
    + intros [<- | []]. auto.
Qed.

(** X13: the numbers of a SUCCESS report add up.  For a service without
    corrupted emails so far, started from an offset within the valid
    recipients, on the path without an Array: a SUCCESS status that
    [importAll] builds has [importedCount] equal to the number of
    decoded recipients the filter accepts, [totalRecipientsCount] equal
    to the number of decoded recipients, and [importedCount] plus
    [corruptedEmailsCount] equal to [totalRecipientsCount]. *)
Theorem success_report_adds_up
    (libs : Libs) (env : Env) (this : Service) (parsed : list Recipient.t)
    (st : Status.t) :
  outcome (parseFile env this) = Fulfilled parsed ->
  corruptedEmails this = [] ->
  0 <= importOffset this <= Z.of_nat (length (filter accepted parsed)) ->
  Forall plainAnswer (saveAll env) ->
  In (EOrphan (Fulfilled (VStatus st))) (trace (importAll env this)) ->
  Status.importStatus st = SUCCESS
  /\ Status.importedCount st = Z.of_nat (length (filter accepted parsed))
  /\ Status.totalRecipientsCount st = Z.of_nat (length parsed)
  /\ Status.importedCount st + Status.corruptedEmailsCount st
     = Status.totalRecipientsCount st.
Proof.
  intros Hp Hc H0 Hplain Hin.
  destruct (importAll_fulfilled libs env this parsed Hp) as (_ & T & _).
  destruct (parseFile_fulfilled libs env this parsed Hp)
    as (md & body & mapping & _ & _ & _ & _ & Pa & _).
  rewrite T in Hin. apply in_app_or in Hin as [Hin | Hin].
  { apply parse_trace_has_no_status in Hin as [Hb _]. discriminate. }
  set (start := prepared (after (parseFile env this)) parsed) in *.
  destruct (prepared_fields (after (parseFile env this)) parsed)
    as (R & C & N & O & _).
  fold start in R, C, N, O. rewrite Pa in C, O.
  cbn [corruptedEmails importOffset set_headerMapping] in C, O.
  rewrite Hc in C. cbn [app] in C.
  destruct (saveRecipients_shape env (saveAll env) start)
    as (chunks & e & Htr & _ & Ha & _).
  destruct (saveRecipients_frame env (saveAll env) start)
    as (R' & C' & N' & _).
  destruct (saveRecipients_offset_within env (saveAll env) start Hplain)
    as [_ Hle].
  { rewrite R, O. exact H0. }
  rewrite Htr in Hin. apply in_app_or in Hin as [Hin | Hin].
  { apply in_map_iff in Hin as (c & Hc' & _). discriminate. }
  destruct e; simpl in Hin;
    repeat (destruct Hin as [Hin | Hin]; try discriminate Hin);
    try contradiction.
  injection Hin as <-. simpl in Ha.
  cbn [successStatus Status.importStatus Status.importedCount
       Status.totalRecipientsCount Status.corruptedEmailsCount].
  rewrite R' in Ha. rewrite C', N', C, N. rewrite R in Ha, Hle.
  pose proof (filter_length accepted parsed) as F.
  rewrite length_map.
  repeat split; lia.
Qed.

Lemma success_report_adds_up_witness :
  exists st,
    In (EOrphan (Fulfilled (VStatus st)))
      (trace (importAll Demo.threeRows
                (constructor (Demo.upload "user.list.csv") None
                   (js "importer"))))
    /\ Status.importedCount st = 2
    /\ Status.importedCount st + Status.corruptedEmailsCount st
       = Status.totalRecipientsCount st.
Proof.
  pose (this := constructor (Demo.upload "user.list.csv") None
                  (js "importer")).
  pose (st := successStatus Demo.threeRows
                (after (importAll Demo.threeRows this))).
  assert (Hin : In (EOrphan (Fulfilled (VStatus st)))
                  (trace (importAll Demo.threeRows this)))
    by (vm_compute; tauto).
  assert (Hp : outcome (parseFile Demo.threeRows this)
               = Fulfilled
                   (Demo.handed (parseCSV Demo.threeRows
                      (set_headerMapping this (Some []))
                      (js "a@b.com" ++ [10%N] ++ js "not-an-email" ++ [10%N]
                       ++ js "c@d.com"))))
    by reflexivity.
  assert (H0 : 0 <= importOffset this
               <= Z.of_nat
                    (length
                       (filter accepted
                          (Demo.handed (parseCSV Demo.threeRows
                             (set_headerMapping this (Some []))
                             (js "a@b.com" ++ [10%N] ++ js "not-an-email"
                              ++ [10%N] ++ js "c@d.com"))))))
    by (vm_compute; split; discriminate).
  assert (Hplain : Forall plainAnswer (saveAll Demo.threeRows))
    by (repeat constructor).
  destruct (success_report_adds_up Demo.plainLibs Demo.threeRows this _ st
              Hp eq_refl H0 Hplain Hin) as (_ & H2 & _ & H4).
  exists st. split; [exact Hin|]. split; [exact H2 | exact H4].
Defined.

(** ** Resuming from a checkpoint *)

Lemma parseCSV_again (libs : Libs) (env env' : Env) (this this' : Service)
    (body : jsstring) (parsed : list Recipient.t) :
  parseCSV env this body = Some parsed ->
  exists parsed',
    parseCSV env' this' body = Some parsed'
    /\ map Recipient.email parsed' = map Recipient.email parsed.
Proof.
  unfold parseCSV. intro H.
  pose proof (parseRows_emails libs this (rowTime env) 0
                (csv_fromString body)) as E.
  pose proof (parseRows_emails libs this' (rowTime env') 0
                (csv_fromString body)) as E'.
  rewrite H in E. rewrite <- E in E'.
  destruct (parseRows this' (rowTime env') 0 (csv_fromString body))
    as [parsed'|]; [|discriminate].
  exists parsed'. split; [reflexivity|].
  cbn [option_map] in E'. congruence.
Qed.

Lemma goesOn_plain (answers : list SaveResponse) :
  Forall goesOn answers -> Forall plainAnswer answers.
Proof.
  induction 1 as [|a rest Ha Hrest IH]; constructor; auto.
  destruct a; [contradiction | exact (proj1 Ha)].
Qed.

Lemma saveRecipients_goesOn_done (env : Env) (answers : list SaveResponse)
    (this : Service) :
  Forall goesOn answers ->
  0 <= importOffset this <= Z.of_nat (length (recipients this)) ->
  Z.of_nat (length (recipients this)) - importOffset this
  <= 25 * Z.of_nat (length answers) ->
  outcome (saveRecipients env answers this) = Fulfilled VUndefined
  /\ importOffset (after (saveRecipients env answers this))
     = Z.of_nat (length (recipients this))
  /\ existsb isInvoke (trace (saveRecipients env answers this)) = false
  /\ In (EOrphan (Fulfilled (VStatus
           (successStatus env (after (saveRecipients env answers this))))))
       (trace (saveRecipients env answers this)).
Proof.
  intro Hgo. revert this.
  induction Hgo as [|a rest Ha Hrest IH]; intros this H0 Hn.
  - simpl in Hn. rewrite saveRecipients_done by lia. simpl.
    repeat split; auto; lia.
  - destruct (Z.ltb_spec (importOffset this)
                (Z.of_nat (length (recipients this)))) as [Hlt | Hge].
    + destruct a as [err | u remaining]; [contradiction|].
      destruct Ha as [Hu Ht].
      rewrite saveRecipients_continue by assumption.
      rewrite (advanceOffset_full_batch this u Hu).
      pose proof (batchOf_length this H0) as L.
      set (this1 := set_importOffset this _) in *.
      assert (R : recipients this1 = recipients this) by reflexivity.
      assert (O : importOffset this1
                  = importOffset this + Z.of_nat (length (batchOf this)))
        by reflexivity.
      specialize (IH this1). rewrite R, O in IH.
      simpl length in Hn.
      destruct IH as (Ho & Hf & Hi & Hs); [lia | lia |].
      unfold preceded. cbn [outcome after trace existsb isInvoke orb].
      repeat split; auto. now right.
    + rewrite saveRecipients_done by lia. simpl.
      repeat split; auto; lia.
Qed.

(** X14: resuming from a checkpoint.  Let an execution on a service made
    by the constructor, whose offset lies between 0 and the number of
    valid recipients, on the path without an Array, send a re-dispatch
    request.  The offset that request carries lies between the starting
    offset and the number of valid recipients.  The execution that the constructor starts from that
    request's payload and lambda name, given the same S3 object, a store
    that takes every chunk in full and enough time, sends no further
    request, ends with its offset at the number of valid recipients and
    builds the SUCCESS status with that [importedCount]. *)
Theorem resumed_execution_completes_import
    (libs : Libs) (env1 env2 : Env) (ev : S3Event) (offset : option Z)
    (functionName : jsstring) (parsed : list Recipient.t)
    (params : InvokeParams) :
  let this := constructor ev offset functionName in
  let valid := Z.of_nat (length (filter accepted parsed)) in
  outcome (parseFile env1 this) = Fulfilled parsed ->
  0 <= importOffset this <= valid ->
  Forall plainAnswer (saveAll env1) ->
  In (EInvoke params) (trace (importAll env1 this)) ->
  getObject env2 = getObject env1 ->
  Forall goesOn (saveAll env2) ->
  valid - payload_importOffset (InvokePayload params)
  <= 25 * Z.of_nat (length (saveAll env2)) ->
  let resumed :=
    importAll env2
      (constructor (Records_s3 (InvokePayload params))
         (Some (payload_importOffset (InvokePayload params)))
         (FunctionName params)) in
  importOffset this <= payload_importOffset (InvokePayload params) <= valid
  /\ outcome resumed = Fulfilled VUndefined
  /\ importOffset (after resumed) = valid
  /\ totalRecipientsCount (after resumed) = Z.of_nat (length parsed)
  /\ existsb isInvoke (trace resumed) = false
  /\ exists st,
       In (EOrphan (Fulfilled (VStatus st))) (trace resumed)
       /\ Status.importStatus st = SUCCESS
       /\ Status.importedCount st = valid.
Proof.
  intros this valid Hp H0 Hplain Hin Hget Hgo Hn resumed.
  (* the first execution *)
  destruct (parseFile_fulfilled libs env1 this parsed Hp)
    as (md & body & mapping & Hg & Hext & Hj & Hparsed & Pa & _).
  destruct (importAll_fulfilled libs env1 this parsed Hp) as (_ & T & _).
  rewrite T in Hin. apply in_app_or in Hin as [Hin | Hin].
  { apply parse_trace_has_no_status in Hin as (_ & Hi & _). discriminate. }
  set (start := prepared (after (parseFile env1 this)) parsed) in *.
  destruct (prepared_fields (after (parseFile env1 this)) parsed)
    as (R & _ & _ & O & S & L).
  fold start in R, O, S, L. rewrite Pa in O, S, L.
  cbn [importOffset s3Event lambdaName set_headerMapping] in O, S, L.
  destruct (saveRecipients_shape env1 (saveAll env1) start)
    as (chunks & e & Htr & _ & _ & _).
  destruct (saveRecipients_frame env1 (saveAll env1) start)
    as (_ & _ & _ & S' & L').
  destruct (saveRecipients_offset_within env1 (saveAll env1) start Hplain)
    as [Hlow Hhigh].
  { rewrite R, O. exact H0. }
  rewrite R in Hhigh. rewrite O in Hlow.
  assert (Hparams : params
                    = redispatch (after (saveRecipients env1 (saveAll env1)
                                           start))).
  { rewrite Htr in Hin. apply in_app_or in Hin as [Hin | Hin].
    - apply in_map_iff in Hin as (c & Hc & _). discriminate.
    - destruct e; simpl in Hin;
        repeat (destruct Hin as [Hin | Hin]; try discriminate Hin);
        try contradiction; now injection Hin. }
  set (final := after (saveRecipients env1 (saveAll env1) start)) in *.
  assert (Hk : payload_importOffset (InvokePayload params)
               = importOffset final) by (rewrite Hparams; reflexivity).
  assert (Hev : Records_s3 (InvokePayload params) = ev).
  { rewrite Hparams. cbn [redispatch InvokePayload Records_s3].
    rewrite S', S. reflexivity. }
  assert (Hfn : FunctionName params = functionName).
  { rewrite Hparams. cbn [redispatch FunctionName].
    rewrite L', L. reflexivity. }
  (* the second execution *)
  subst resumed. rewrite Hev, Hfn, Hk in *.
  set (this2 := constructor ev (Some (importOffset final)) functionName).
  assert (Hext2 : fileExt this2 = js "csv") by exact Hext.
  destruct (parseCSV_again libs env1 env2
              (set_headerMapping this (Some mapping))
              (set_headerMapping this2 (Some mapping)) body parsed Hparsed)
    as (parsed2 & Hparsed2 & He).
  assert (Hp2 : outcome (parseFile env2 this2) = Fulfilled parsed2).
  { unfold parseFile. rewrite Hget, Hg, Hext2, Hj, jsstring_eqb_refl.
    cbn [outcome]. now rewrite Hparsed2. }
  assert (Pa2 : after (parseFile env2 this2)
                = set_headerMapping this2 (Some mapping)).
  { unfold parseFile. rewrite Hget, Hg, Hext2, Hj. reflexivity. }
  assert (Hlen : length parsed2 = length parsed).
  { rewrite <- (length_map Recipient.email parsed2), He.
    apply length_map. }
  assert (Hvalid : length (filter accepted parsed2)
                   = length (filter accepted parsed)).
  { rewrite <- (length_map Recipient.email (filter accepted parsed2)).
    rewrite <- (length_map Recipient.email (filter accepted parsed)).
    now rewrite !filter_accepted_emails, He. }
  destruct (importAll_fulfilled libs env2 this2 parsed2 Hp2)
    as (A2 & T2 & Out2).
  set (start2 := prepared (after (parseFile env2 this2)) parsed2) in *.
  destruct (prepared_fields (after (parseFile env2 this2)) parsed2)
    as (R2 & _ & N2 & O2 & _).
  fold start2 in R2, N2, O2. rewrite Pa2 in O2.
  cbn [importOffset set_headerMapping this2 constructor] in O2.
  destruct (saveRecipients_goesOn_done env2 (saveAll env2) start2 Hgo)
    as (Hout & Hoff & Hinv & Hst).
  { rewrite R2, O2, Hvalid. fold valid. lia. }
  { rewrite R2, O2, Hvalid. fold valid. exact Hn. }
  destruct (saveRecipients_frame env2 (saveAll env2) start2)
    as (_ & _ & N2' & _).
  rewrite R2, Hvalid in Hoff. fold valid in Hoff.
  split; [fold valid in Hhigh; lia|].
  split; [rewrite Out2, Hout; reflexivity|].
  split; [rewrite A2; exact Hoff|].
  split; [rewrite A2, N2', N2, Hlen; reflexivity|].
  split.
  { rewrite T2, existsb_app, Hinv, orb_false_r.
    unfold parseFile. rewrite Hget, Hg, Hext2, Hj. reflexivity. }
  eexists. split.
  - rewrite T2. apply in_or_app. right. exact Hst.
  - cbn [successStatus Status.importStatus Status.importedCount].
    split; [reflexivity | exact Hoff].
Qed.

Lemma resumed_execution_completes_import_witness :
  importOffset
    (after (importAll Sample.secondRun
              (constructor (Demo.upload "user.list.csv") (Some 25)
                 (js "importer"))))
  = 30.
Proof.
  pose (this := constructor (Demo.upload "user.list.csv") None
                  (js "importer")).
  assert (Hin : In (EInvoke (redispatch
                               (set_importOffset this 25)))
                  (trace (importAll Sample.firstRun this)))
    by (vm_compute; tauto).
  assert (Hp : outcome (parseFile Sample.firstRun this)
               = Fulfilled
                   (Demo.handed (parseCSV Sample.firstRun
                      (set_headerMapping this (Some []))
                      (concat (repeat (js "a@b.com" ++ [10%N]) 30)))))
    by reflexivity.
  refine (proj1 (proj2 (proj2
            (resumed_execution_completes_import Demo.plainLibs
               Sample.firstRun Sample.secondRun
               (Demo.upload "user.list.csv") None (js "importer")
               _ (redispatch (set_importOffset this 25))
               Hp _ _ Hin eq_refl _ _)))).
  - vm_compute. split; discriminate.
  - repeat constructor.
  - repeat constructor.
  - vm_compute. discriminate.
Defined.

(** ** One recipient per row *)

Lemma parseRows_nth (libs : Libs) (this : Service) (clock : nat -> Z)
    (k : nat) (rows : list (object jsstring)) (l : list Recipient.t) :
  parseRows this clock k rows = Some l ->
  length l = length rows
  /\ forall i data,
       nth_error rows i = Some data ->
       exists r,
         nth_error l i = Some r
         /\ newRecp this (clock (k + i)%nat) data = Some r.
Proof.
  revert k l. induction rows as [|data rest IH]; intros k l; cbn [parseRows].
  - intro H. injection H as <-. split; [reflexivity|].
    intros [|i] d Hd; discriminate.
  - destruct (newRecp this (clock k) data) as [r|] eqn:E; [|discriminate].
    destruct (parseRows this clock (S k) rest) as [l'|] eqn:P;
      [|discriminate].
    intro H. injection H as <-.
    destruct (IH (S k) l' P) as [Hlen Hnth].
    split; [simpl; now rewrite Hlen|].
    intros [|i] d Hd; cbn [nth_error] in *.
    + injection Hd as <-. exists r. now rewrite Nat.add_0_r.
    + destruct (Hnth i d Hd) as (r' & Hr & Hn).
      exists r'. now rewrite Nat.add_succ_r.
Qed.

(** X15: [parseCSV] hands the recipients over exactly when every decoded
    row has an [email]; one row without it and the callback is never
    called.  When it is, there is one recipient per row, in row order:
    the recipient of the i-th row has that row's [email], the encoding
    of it as [id], the [userId] and [listId] of the service, the
    subscribed status, the confirmed flag, and the time at which the
    row was decoded. *)
Theorem parseCSV_calls_back_when_every_row_has_email
    (libs : Libs) (env : Env) (this : Service) (csvString : jsstring) :
  (parseCSV env this csvString = None
   <-> Exists (fun data => get data (js "email") = None)
         (csv_fromString csvString))
  /\ forall l,
       parseCSV env this csvString = Some l ->
       length l = length (csv_fromString csvString)
       /\ forall i data,
            nth_error (csv_fromString csvString) i = Some data ->
            exists r email,
              nth_error l i = Some r
              /\ get data (js "email") = Some email
              /\ Recipient.email r = Some email
              /\ Recipient.id r = base64url_encode email
              /\ Recipient.userId r = userId this
              /\ Recipient.listId r = listId this
              /\ Recipient.status r = statuses_subscribed
              /\ Recipient.isConfirmed r = true
              /\ Recipient.createdAt r = rowTime env i.
Proof.
  unfold parseCSV. split.
  - rewrite parseRows_none. apply rowEmails_none.
  - intros l Hl.
    destruct (parseRows_nth libs this (rowTime env) 0 _ l Hl) as [Hlen Hnth].
    split; [exact Hlen|].
    intros i data Hi. destruct (Hnth i data Hi) as (r & Hr & Hn).
    cbn [Nat.add] in Hn. unfold newRecp in Hn.
    destruct (get data (js "email")) as [email|]; [|discriminate].
    injection Hn as <-. eexists. exists email.
    split; [exact Hr|]. repeat split.
Qed.

(** ** An offset before the start of the list *)

Lemma batchOf_negative_offset (this : Service) :
  -25 <= importOffset this < 0 ->
  25 <= Z.of_nat (length (recipients this)) ->
  batchOf this = [].
Proof.
  intros Ho Hl. unfold batchOf, slice, maxBatchSize.
  destruct (Z.ltb_spec (importOffset this) 0); [|lia].
  destruct (Z.ltb_spec (importOffset this + 25) 0); [lia|].
  replace (Z.to_nat _) with 0%nat by lia. reflexivity.
Qed.

(** X16: an offset between -25 and -1 on a list of 25 recipients or more
    stalls the import.  [slice] then counts the offset from the end of
    the list and cuts an empty batch, so that, on the path without an
    Array, every [saveAll] call receives no recipient, the offset and
    the rest of [this] never change, no SUCCESS status is built, and a
    re-dispatch request carries the same negative offset again. *)
Theorem negative_offset_stalls
    (env : Env) (answers : list SaveResponse) (this : Service) :
  -25 <= importOffset this < 0 ->
  25 <= Z.of_nat (length (recipients this)) ->
  Forall plainAnswer answers ->
  let r := saveRecipients env answers this in
  after r = this
  /\ exists n e,
       trace r = repeat (ESaveAll []) (S n) ++ endingEvents env this e
       /\ e <> Done
       /\ (n <= length answers)%nat.
Proof.
  intros Ho Hl Hp. cbv zeta.
  assert (Hlt : importOffset this < Z.of_nat (length (recipients this)))
    by lia.
  pose proof (batchOf_negative_offset this Ho Hl) as Hb.
  induction Hp as [|a rest Ha Hrest IH].
  - rewrite saveRecipients_eq. apply Z.ltb_lt in Hlt. rewrite Hlt, Hb.
    cbn [catchHandler outcome after trace].
    split; [reflexivity|]. exists 0%nat, Unanswered.
    repeat split; [discriminate | lia].
  - destruct a as [err | u remaining].
    + rewrite saveRecipients_rejected by assumption. rewrite Hb.
      cbn [after trace]. split; [reflexivity|].
      exists 0%nat, (SaveFailed err).
      repeat split; [discriminate | simpl; lia].
    + cbn [plainAnswer] in Ha.
      assert (E : advanceOffset this u (batchOf this) = this).
      { rewrite advanceOffset_full_batch by assumption.
        rewrite Hb. cbn [length]. rewrite Z.add_0_r.
        apply set_importOffset_same. }
      destruct (timeEnough remaining) eqn:Ht.
      * rewrite saveRecipients_continue by assumption.
        rewrite E, Hb. unfold preceded. cbn [after trace].
        destruct IH as (Ha' & n & e & Htr & Hne & Hn).
        split; [exact Ha'|]. exists (S n), e.
        rewrite Htr. repeat split; [exact Hne | simpl; lia].
      * rewrite saveRecipients_eq. apply Z.ltb_lt in Hlt as Hlt'.
        rewrite Hlt', Ht, E, Hb.
        unfold catchHandler, invokeLambda, preceded.
        cbn [outcome after trace].
        destruct (invoke env) as [err | data]; cbn [after trace].
        -- split; [reflexivity|]. exists 0%nat, (DispatchFailed err).
           repeat split; [discriminate | simpl; lia].
        -- split; [reflexivity|]. exists 0%nat, (Dispatched data).
           repeat split; [discriminate | simpl; lia].
Qed.

Lemma negative_offset_stalls_witness :
  after (saveRecipients Sample.firstRun
           [SaveResolves JUndefined 100000; SaveResolves JUndefined 50000]
           (Demo.loaded 30 (-3)))
  = Demo.loaded 30 (-3).
Proof.
  refine (proj1 (negative_offset_stalls Sample.firstRun
                   [SaveResolves JUndefined 100000;
                    SaveResolves JUndefined 50000]
                   (Demo.loaded 30 (-3)) _ _ _)).
  - vm_compute. split; [discriminate | reflexivity].
  - vm_compute. discriminate.
  - repeat constructor.
Defined.

(** ** The S3 client *)

(** X17: the S3 client getter.  A client handed to the constructor is
    the one returned, and none is created.  Otherwise a client is
    created at the first use, for the region of [SERVERLESS_REGION] or,
    when that is unset or empty, for [us-east-1]; it is kept, so that
    every later use returns the same client, whatever the variable holds
    by then. *)
Theorem s3Client_is_created_once
    (s3 : option S3Client) (region later : option jsstring) :
  snd (s3Client s3 region) = Some (fst (s3Client s3 region))
  /\ s3Client (snd (s3Client s3 region)) later
     = (fst (s3Client s3 region), snd (s3Client s3 region))
  /\ (forall given, s3 = Some given -> fst (s3Client s3 region) = given)
  /\ (s3 = None ->
      exists name,
        fst (s3Client s3 region) = NewClient name
        /\ name <> []
        /\ (match region with
            | Some (c :: rest) => name = c :: rest
            | _ => name = js "us-east-1"
            end)).
Proof.
  destruct s3 as [given|]; cbn [s3Client fst snd].
  - repeat split; [congruence | discriminate].
  - repeat split; [discriminate|]. intros _.
    exists (regionOf region). split; [reflexivity|].
    destruct region as [[|c rest]|]; cbn [regionOf];
      split; (discriminate || reflexivity).
Qed.
